(** * gcp-rider: the inventory fetcher and the selection state machine

    A shallow embedding of [gcp.Client.FetchInstances] (package [gcp]) and of
    [tui.Model] with its [NewModel], [Update] and [View] phases (package
    [tui]), followed by the properties the specification states about them. *)

From Stdlib Require Import ZArith List String Ascii Bool Lia.
Import ListNotations.
Open Scope string_scope.
Open Scope Z_scope.

(** ** Values of the Go runtime and standard library *)

Module Go.

(** What a Go call gives back: it returns, or the goroutine panics (index
    out of range, nil pointer dereference). *)
Inductive outcome (A : Type) : Type :=
| Returns (a : A)
| Panics.
Arguments Returns {A} a.
Arguments Panics {A}.

Definition bind {A B : Type} (o : outcome A) (k : A -> outcome B) : outcome B :=
  match o with
  | Returns a => k a
  | Panics => Panics
  end.

(** The values of the interface type [error] that occur in the program. *)
Inductive error : Type :=
| Done                                   (* iterator.Done *)
| errorString (s : string)               (* errors.New(s) *)
| wrapError (msg : string) (err : error) (* fmt.Errorf("...%w", err) *)
| errMsg_error (err : error).            (* tui.errMsg{err}, as an error value *)

Fixpoint Error (e : error) : string :=
  match e with
  | Done => "no more items in iterator"
  | errorString s => s
  | wrapError msg _ => msg
  | errMsg_error err => Error err           (* func (e errMsg) Error() *)
  end.

(** [fmt.Errorf(prefix + "%w", err)] *)
Definition Errorf_w (prefix : string) (err : error) : error :=
  wrapError (prefix ++ Error err) err.

Definition Unwrap (e : error) : option error :=
  match e with
  | wrapError _ err => Some err
  | _ => None
  end.

(** [err == iterator.Done] *)
Definition is_Done (e : error) : bool :=
  match e with
  | Done => true
  | _ => false
  end.

(** The range of Go's 64-bit [int]. *)
Definition is_int (z : Z) : Prop := - 2 ^ 63 <= z < 2 ^ 63.

(** [len(s)] of a slice, a Go int. *)
Definition len {A : Type} (s : list A) : Z := Z.of_nat (List.length s).

(** [s[i]]: panics when i is out of range. *)
Definition index {A : Type} (s : list A) (i : Z) : outcome A :=
  if i <? 0 then Panics
  else match nth_error s (Z.to_nat i) with
       | Some a => Returns a
       | None => Panics
       end.

(** [*p] of a pointer that may be nil. *)
Definition deref {A : Type} (p : option A) : outcome A :=
  match p with
  | Some a => Returns a
  | None => Panics
  end.

(** [strings.LastIndexByte(s, c)]: -1 when c does not occur. *)
Fixpoint LastIndexByte (s : string) (c : ascii) : Z :=
  match s with
  | EmptyString => -1
  | String a s' =>
      let i := LastIndexByte s' c in
      if 0 <=? i then i + 1
      else if Ascii.eqb a c then 0 else -1
  end.

(** [s[n:]] *)
Fixpoint slice_from (n : nat) (s : string) : string :=
  match n, s with
  | O, _ => s
  | S n', String _ s' => slice_from n' s'
  | S _, EmptyString => EmptyString
  end.

(** The loop of [path.Base] that strips trailing slashes:
    [for len(path) > 0 && path[len(path)-1] == '/' { path = path[0 : len(path)-1] }] *)
Fixpoint stripTrailingSlashes (s : string) : string :=
  match s with
  | EmptyString => EmptyString
  | String a s' =>
      match stripTrailingSlashes s' with
      | EmptyString => if Ascii.eqb a "/" then EmptyString else String a EmptyString
      | r => String a r
      end
  end.

(** [path.Base] *)
Definition path_Base (path : string) : string :=
  if String.eqb path "" then "."
  else
    let path := stripTrailingSlashes path in
    let i := LastIndexByte path "/" in
    let path := if 0 <=? i then slice_from (Z.to_nat (i + 1)) path else path in
    if String.eqb path "" then "/" else path.

End Go.

Import Go.

(** ** The messages of the compute API the fetcher reads *)

Module computepb.

(** [computepb.Instance]: Name and Zone are [*string]. *)
Record Instance : Type := {
  Name : option string;
  Zone : option string
}.

(** [computepb.InstancesScopedList]: Instances is [[]*Instance]. *)
Record InstancesScopedList : Type := {
  Instances : list (option Instance)
}.

End computepb.

Module compute.

(** [compute.InstancesScopedListPair]: Value is [*InstancesScopedList]. *)
Record InstancesScopedListPair : Type := {
  Key : string;
  Value : option computepb.InstancesScopedList
}.

(** What one call of [it.Next()] hands over before the iterator is used up:
    the next pair, or the error of the page request. *)
Inductive response : Type :=
| Item (p : InstancesScopedListPair)
| Failure (err : error).

(** [compute.InstancesIterator], by the answers its successive [Next] calls
    will give; after the last one [Next] answers [iterator.Done]. *)
Definition InstancesIterator : Type := list response.

(** The zero value [InstancesScopedListPair{}] that comes with an error. *)
Definition zeroPair : InstancesScopedListPair := {| Key := ""; Value := None |}.

(** [it.Next()]: the pair, the error, and the iterator afterwards. *)
Definition Next (it : InstancesIterator)
  : (InstancesScopedListPair * option error) * InstancesIterator :=
  match it with
  | [] => ((zeroPair, Some Done), [])
  | Item p :: it' => ((p, None), it')
  | Failure err :: it' => ((zeroPair, Some err), it')
  end.

End compute.

(** ** Package gcp *)

Module gcp.

(** [gcp.Instance] *)
Record Instance : Type := {
  Name : string;
  Zone : string
}.

(** The inner loop of FetchInstances,
    [for _, instance := range pair.Value.Instances { ... vms = append(vms, ...) }] *)
Fixpoint appendInstances (instances : list (option computepb.Instance))
    (vms : list Instance) : outcome (list Instance) :=
  match instances with
  | [] => Returns vms
  | instance :: rest =>
      bind (deref instance) (fun i =>
      bind (deref (computepb.Zone i)) (fun z =>
      let zone := path_Base z in
      bind (deref (computepb.Name i)) (fun n =>
      appendInstances rest (vms ++ [{| Name := n; Zone := zone |}])%list)))
  end.

(** The [for] loop of FetchInstances over [it.Next()]; [vms] is the slice
    accumulated so far.  The result pair is Go's [([]Instance, error)]; the
    nil slice is the empty list.  The recursion follows the answers of the
    iterator; [fetchLoop_Next] below restates it through [compute.Next]. *)
Fixpoint fetchLoop (it : compute.InstancesIterator) (vms : list Instance)
    : outcome (list Instance * option error) :=
  match it with
  | [] => Returns (vms, None)                         (* err == iterator.Done *)
  | compute.Failure err :: _ =>
      if is_Done err then Returns (vms, None)
      else Returns ([], Some (Errorf_w "failed to iterate over instances: " err))
  | compute.Item p :: it' =>                         (* p is the source's pair *)
      match compute.Value p with
      | Some value =>
          if 0 <? len (computepb.Instances value)
          then bind (appendInstances (computepb.Instances value) vms)
                    (fun vms' => fetchLoop it' vms')
          else fetchLoop it' vms
      | None => fetchLoop it' vms
      end
  end.

(** [Client.FetchInstances]: [it] is the iterator that
    [c.api.AggregatedList(ctx, req)] returns for the project. *)
Definition FetchInstances (it : compute.InstancesIterator)
    : outcome (list Instance * option error) :=
  fetchLoop it [].

End gcp.

(** ** The libraries the terminal interface is built on *)

Module spinner.

(** [github.com/charmbracelet/bubbles/spinner], which the program only
    stores, ticks and renders: its model, its tick message, the commands its
    methods return and the two methods that [tui] calls. *)
Class Lib : Type := {
  Model : Type;
  TickMsg : Type;
  Cmd : Type;
  New : Model;                          (* spinner.New() with Spinner = spinner.Dot *)
  Tick : Model -> Cmd;                  (* the method value m.spinner.Tick *)
  Update : Model -> TickMsg -> Model * Cmd
}.

End spinner.

Module exec.

(** [os/exec.Cmd], as far as [exec.Command] fills it in. *)
Record Cmd : Type := {
  Path : string;
  Args : list string
}.

Definition Command (name : string) (arg : list string) : Cmd :=
  {| Path := name; Args := name :: arg |}.

End exec.

(** ** Package tui *)

Module tui.

Section WithSpinner.

Context {sp : spinner.Lib}.

(** The interface [gcpClient]: FetchInstances for a project ID. *)
Definition gcpClient : Type :=
  string -> outcome (list gcp.Instance * option error).

Record Model : Type := {
  client : gcpClient;                 (* the field gcpClient *)
  projectID : string;
  vms : list gcp.Instance;
  cursor : Z;
  loading : bool;
  spinner : spinner.Model;
  err : option error
}.

(** The messages [Update] tells apart by their dynamic type.  A
    [tea.KeyMsg] is given by its [String()], the only thing [Update]
    reads of it. *)
Inductive Msg : Type :=
| KeyMsg (s : string)
| vmsMsg (l : list gcp.Instance)
| errMsg (e : error)
| TickMsg (t : spinner.TickMsg)
| otherMsg.

(** The [tea.Cmd] values the program builds. *)
#[warnings="-register-all"]
Inductive Cmd : Type :=
| Nil                                 (* the nil command *)
| Quit                                (* tea.Quit *)
| ExecProcess (c : exec.Cmd)          (* tea.ExecProcess(c, nil) *)
| SpinnerCmd (c : spinner.Cmd)
| fetchVms (m : Model)                (* the method value m.fetchVmsCmd *)
| Batch (cs : list Cmd).              (* tea.Batch(cs...) *)

Definition NewModel (c : gcpClient) (projectID : string) : Model :=
  {| client := c;
     projectID := projectID;
     vms := [];
     cursor := 0;
     loading := true;
     spinner := spinner.New;
     err := None |}.

Definition Init (m : Model) : Cmd :=
  Batch [SpinnerCmd (spinner.Tick (spinner m)); fetchVms m].

Definition fetchVmsCmd (m : Model) : outcome Msg :=
  bind (client m (projectID m)) (fun '(vms, err) =>
  match err with
  | Some e => Returns (errMsg e)
  | None => Returns (vmsMsg vms)
  end).

Definition set_cursor (m : Model) (c : Z) : Model :=
  {| client := client m; projectID := projectID m; vms := vms m;
     cursor := c; loading := loading m; spinner := spinner m; err := err m |}.

Definition set_spinner (m : Model) (s : spinner.Model) : Model :=
  {| client := client m; projectID := projectID m; vms := vms m;
     cursor := cursor m; loading := loading m; spinner := s; err := err m |}.

(** The command that opens the remote shell on [vm]. *)
Definition LaunchSession (vm : gcp.Instance) (projectID : string) : Cmd :=
  ExecProcess
    (exec.Command "gcloud"
       ["compute"; "ssh"; gcp.Name vm; "--zone"; gcp.Zone vm; "--project"; projectID]).

(** [Model.Update].  The cursor is a Go int; the guards of the two cursor
    moves keep the decrement at or above 0 and the increment below
    [len(m.vms)], so neither can leave the range of int. *)
Definition Update (m : Model) (msg : Msg) : outcome (Model * Cmd) :=
  match msg with
  | KeyMsg s =>
      if (s =? "ctrl+c")%string || (s =? "q")%string then
        Returns (m, Quit)
      else if (s =? "up")%string || (s =? "k")%string then
        Returns (if 0 <? cursor m then set_cursor m (cursor m - 1) else m, Nil)
      else if (s =? "down")%string || (s =? "j")%string then
        Returns (if cursor m <? len (vms m) - 1 then set_cursor m (cursor m + 1) else m, Nil)
      else if (s =? "enter")%string then
        if len (vms m) =? 0 then Returns (m, Nil)
        else
          bind (index (vms m) (cursor m)) (fun vm =>
          Returns (m, LaunchSession vm (projectID m)))
      else Returns (m, Nil)
  | vmsMsg l =>
      Returns ({| client := client m; projectID := projectID m; vms := l;
                  cursor := cursor m; loading := false; spinner := spinner m;
                  err := err m |}, Nil)
  | errMsg e =>
      Returns ({| client := client m; projectID := projectID m; vms := vms m;
                  cursor := cursor m; loading := false; spinner := spinner m;
                  err := Some (errMsg_error e) |}, Nil)
  | TickMsg t =>
      let (s, cmd) := spinner.Update (spinner m) t in
      Returns (set_spinner m s, SpinnerCmd cmd)
  | otherMsg => Returns (m, Nil)
  end.

(** The three screens of [View], tested in its order: the error screen
    when [m.err != nil], else the loading screen when [m.loading], else the
    list. *)
Inductive Phase : Type := Loading | Ready | Failed.

Definition phase (m : Model) : Phase :=
  match err m with
  | Some _ => Failed
  | None => if loading m then Loading else Ready
  end.

(** The event loop of the Bubble Tea runtime: each message is processed
    to completion by [Update] before the next one, the returned command
    is handed to the runtime, and [tea.Quit] ends the loop.  The result is
    the last model and the commands returned, one per processed message. *)
Fixpoint run (m : Model) (msgs : list Msg) : outcome (Model * list Cmd) :=
  match msgs with
  | [] => Returns (m, [])
  | msg :: rest =>
      bind (Update m msg) (fun '(m', cmd) =>
      match cmd with
      | Quit => Returns (m', [Quit])
      | _ => bind (run m' rest) (fun '(m'', cmds) => Returns (m'', cmd :: cmds))
      end)
  end.

(** The results of the fetch: [vmsMsg] and [errMsg]. *)
Definition fetch_result (msg : Msg) : bool :=
  match msg with
  | vmsMsg _ | errMsg _ => true
  | _ => false
  end.

Definition key_event (msg : Msg) : bool :=
  match msg with
  | KeyMsg _ => true
  | _ => false
  end.

Definition fetch_results (msgs : list Msg) : nat :=
  List.length (filter fetch_result msgs).

(** States the loop can be in after any sequence of messages. *)
Definition reachable (m : Model) : Prop :=
  exists c pid msgs cmds, run (NewModel c pid) msgs = Returns (m, cmds).

(** States of a run of the program: [Init] issues [fetchVmsCmd] once and
    [Update] never issues it again, so at most one fetch result is among
    the messages. *)
Definition run_reachable (m : Model) : Prop :=
  exists c pid msgs cmds,
    (fetch_results msgs <= 1)%nat /\ run (NewModel c pid) msgs = Returns (m, cmds).

(** The cursor invariant of the selection state. *)
Definition cursor_ok (m : Model) : Prop :=
  match vms m with
  | [] => cursor m = 0
  | _ :: _ => 0 <= cursor m < len (vms m)
  end.

(** Does a command (re)issue the fetch? *)
Fixpoint issues_fetch (c : Cmd) : bool :=
  match c with
  | fetchVms _ => true
  | Batch cs => existsb issues_fetch cs
  | _ => false
  end.

(** Is a command a session launch? *)
Definition is_launch (c : Cmd) : bool :=
  match c with
  | ExecProcess _ => true
  | _ => false
  end.


(** What a message other than a fetch result can do to the model. *)
Inductive change (m : Model) : Model -> Prop :=
| change_none : change m m
| change_up : 0 < cursor m -> change m (set_cursor m (cursor m - 1))
| change_down : cursor m < len (vms m) - 1 -> change m (set_cursor m (cursor m + 1))
| change_spinner s : change m (set_spinner m s).

(** Nothing is listed and the cursor has not moved while the fetch is
    outstanding. *)
Definition fresh (m : Model) : Prop :=
  loading m = true -> vms m = [] /\ cursor m = 0.

End WithSpinner.

End tui.

(** ** Vocabulary of the specification *)

Module fetcher.

(** The instance entries of one scoped list; none when Value is nil. *)
Definition instances_of (p : compute.InstancesScopedListPair)
    : list (option computepb.Instance) :=
  match compute.Value p with
  | Some value => computepb.Instances value
  | None => []
  end.

(** An instance entry as the API delivers it: present, with name and zone. *)
Definition populated (i : option computepb.Instance) : bool :=
  match i with
  | Some {| computepb.Name := Some _; computepb.Zone := Some _ |} => true
  | _ => false
  end.

Definition well_formed (pages : list compute.InstancesScopedListPair) : bool :=
  forallb (fun p => forallb populated (instances_of p)) pages.

Definition well_formed_response (r : compute.response) : bool :=
  match r with
  | compute.Item p => forallb populated (instances_of p)
  | compute.Failure _ => true
  end.

(** The instance record of one populated entry. *)
Definition record_of (i : option computepb.Instance) : list gcp.Instance :=
  match i with
  | Some {| computepb.Name := Some n; computepb.Zone := Some z |} =>
      [{| gcp.Name := n; gcp.Zone := path_Base z |}]
  | _ => []
  end.

(** The records of all pages, in iteration order. *)
Definition records (pages : list compute.InstancesScopedListPair) : list gcp.Instance :=
  flat_map (fun p => flat_map record_of (instances_of p)) pages.

(** A scoped-list entry with nothing to read: nil Value or no instances. *)
Definition skippable (p : compute.InstancesScopedListPair) : Prop :=
  instances_of p = [].

(** One path segment: not empty and without a slash. *)
Definition segment (s : string) : Prop :=
  s <> "" /\ ~ In "/"%char (list_ascii_of_string s).

(** How a record relates to the instance entry it was made from. *)
Definition made_from (i : option computepb.Instance) (r : gcp.Instance) : Prop :=
  exists inst, i = Some inst
    /\ computepb.Name inst = Some (gcp.Name r)
    /\ (forall prefix seg, segment seg ->
          computepb.Zone inst = Some (prefix ++ "/" ++ seg) -> gcp.Zone r = seg)
    /\ (forall seg, segment seg ->
          computepb.Zone inst = Some seg -> gcp.Zone r = seg).

End fetcher.

(** ** Concrete data: the scenarios of the specification and of the tests *)

Module Samples.

(** A spinner that stands still. *)
#[local] Instance stillSpinner : spinner.Lib := {|
  spinner.Model := unit;
  spinner.TickMsg := unit;
  spinner.Cmd := unit;
  spinner.New := tt;
  spinner.Tick := fun _ => tt;
  spinner.Update := fun m _ => (m, tt)
|}.

Definition vm1 : gcp.Instance := {| gcp.Name := "vm-1"; gcp.Zone := "us-central1-a" |}.
Definition vm2 : gcp.Instance := {| gcp.Name := "vm-2"; gcp.Zone := "europe-west1-b" |}.
Definition vm3 : gcp.Instance := {| gcp.Name := "vm-3"; gcp.Zone := "z-1" |}.

(** A client in the manner of the test double: it hands out its canned result. *)
Definition mockClient (instances : list gcp.Instance) (err : option error) : tui.gcpClient :=
  fun _ =>
    match err with
    | Some e => Returns ([], Some e)
    | None => Returns (instances, None)
    end.

Definition zonePrefix : string :=
  "https://www.googleapis.com/compute/v1/projects/proj/zones".

Definition instance1 : computepb.Instance :=
  {| computepb.Name := Some "instance-1";
     computepb.Zone := Some (zonePrefix ++ "/" ++ "us-central1-a") |}.

Definition instance2 : computepb.Instance :=
  {| computepb.Name := Some "instance-2";
     computepb.Zone := Some (zonePrefix ++ "/" ++ "europe-west1-b") |}.

Definition scoped (key : string) (l : list (option computepb.Instance))
    : compute.InstancesScopedListPair :=
  {| compute.Key := key;
     compute.Value := Some {| computepb.Instances := l |} |}.

Definition page1 := scoped "zones/us-central1-a" [Some instance1].
Definition page2 := scoped "zones/europe-west1-b" [Some instance2].

(** Scopes without instances, as the aggregated list reports them. *)
Definition emptyPage := scoped "zones/asia-east1-a" [].
Definition nilPage : compute.InstancesScopedListPair :=
  {| compute.Key := "regions/us-east1"; compute.Value := None |}.

(** An instance entry whose zone pointer is nil. *)
Definition zonelessPage :=
  scoped "zones/us-central1-a"
    [Some {| computepb.Name := Some "instance-1"; computepb.Zone := None |}].

Definition apiError : error := errorString "GCP API error".

Definition testClient : tui.gcpClient := mockClient [vm1; vm2] None.

(** The model after the fetch delivered [inventory], with the cursor at [c]. *)
Definition listing (inventory : list gcp.Instance) (c : Z) : tui.Model :=
  {| tui.client := testClient; tui.projectID := "test-project";
     tui.vms := inventory; tui.cursor := c; tui.loading := false;
     tui.spinner := tt; tui.err := None |}.

(** The model after the fetch failed with [e]. *)
Definition failed (e : error) : tui.Model :=
  {| tui.client := testClient; tui.projectID := "test-project";
     tui.vms := []; tui.cursor := 0; tui.loading := false;
     tui.spinner := tt; tui.err := Some (errMsg_error e) |}.

Definition serverError : error := errorString "internal server error".

(** Three machines arrive, the cursor goes down twice, and a second fetch
    result arrives: an empty one, or a shorter one followed by enter. *)
Definition secondFetchEmpty : list tui.Msg :=
  [tui.vmsMsg [vm1; vm2; vm3]; tui.KeyMsg "down"; tui.KeyMsg "down"; tui.vmsMsg []].

Definition secondFetchShorter : list tui.Msg :=
  [tui.vmsMsg [vm1; vm2; vm3]; tui.KeyMsg "down"; tui.KeyMsg "down";
   tui.vmsMsg [vm1]; tui.KeyMsg "enter"].

End Samples.

(** Reads off what a call returned. *)
Ltac returned :=
  match goal with
  | H : Returns _ = Returns _ |- _ => injection H as <- <-
  | H : Panics = Returns _ |- _ => discriminate H
  end.

(** ** The rest of the two packages: the client, the view *)

Module client.

(** [computepb.AggregatedListInstancesRequest], as far as FetchInstances
    fills it in. *)
Record AggregatedListInstancesRequest : Type := {
  Project : string
}.

(** [gcp.Client]: the field [api] is the interface [instancesAPI], whose one
    method AggregatedList answers a request with a fresh iterator. *)
Record Client : Type := {
  api : AggregatedListInstancesRequest -> compute.InstancesIterator
}.

(** [Client.FetchInstances], from the request on. *)
Definition FetchInstances (c : Client) (projectID : string)
    : outcome (list gcp.Instance * option error) :=
  let req := {| Project := projectID |} in
  let it := api c req in
  gcp.FetchInstances it.

(** The pairs [Next] hands over before its first error. *)
Fixpoint drained (it : compute.InstancesIterator)
    : list compute.InstancesScopedListPair :=
  match it with
  | compute.Item p :: it' => p :: drained it'
  | _ => []
  end.

(** A zone that [gcloud --zone] can take: one path element. *)
Definition single_element (zone : string) : Prop :=
  zone <> "" /\ (zone = "/" \/ ~ In "/"%char (list_ascii_of_string zone)).

End client.

Module render.

Section WithSpinnerView.

Context {sp : spinner.Lib}.

(** The method [spinner.Model.View] of the spinner library. *)
Variable spinner_View : spinner.Model -> string.

Definition nl : string := String (ascii_of_nat 10) "".

(** [fmt.Sprintf("%s [%s]\n", cursor, vm.Name)] with the marker chosen by
    [m.cursor == i]. *)
Definition row (cursor i : Z) (vm : gcp.Instance) : string :=
  (if cursor =? i then ">" else " ") ++ " [" ++ gcp.Name vm ++ "]" ++ nl.

(** The loop of [View] over [m.vms]; [b] is what the strings.Builder holds
    and [i] the index of the next record. *)
Fixpoint writeRows (cursor i : Z) (vms : list gcp.Instance) (b : string) : string :=
  match vms with
  | [] => b
  | vm :: rest => writeRows cursor (i + 1) rest (b ++ row cursor i vm)
  end.

(** [Model.View] *)
Definition View (m : tui.Model) : string :=
  match tui.err m with
  | Some e => nl ++ "An error occurred: " ++ Error e ++ nl ++ nl ++ "Press q to quit." ++ nl
  | None =>
      if tui.loading m then
        nl ++ " " ++ spinner_View (tui.spinner m) ++ " Loading VMs..." ++ nl ++ nl
      else
        let b := "GCP VMs:" ++ nl ++ nl in
        let b := writeRows (tui.cursor m) 0 (tui.vms m) b in
        b ++ nl ++ "Press q to quit." ++ nl
  end.

(** The rows of the list, one string per record. *)
Fixpoint rows (cursor i : Z) (vms : list gcp.Instance) : list string :=
  match vms with
  | [] => []
  | vm :: rest => row cursor i vm :: rows cursor (i + 1) rest
  end.

(** The text of several strings written one after the other. *)
Definition joined (l : list string) : string := fold_right append "" l.

End WithSpinnerView.

End render.

Ltac returned_one :=
  match goal with
  | H : Returns _ = Returns _ |- _ => injection H as <-
  end.

(** * Properties *)

(** ** path.Base on zone identifiers *)

Section PathBase.

Import fetcher.

Lemma no_slash_cons a s :
  ~ In "/"%char (list_ascii_of_string (String a s)) ->
  Ascii.eqb a "/" = false /\ ~ In "/"%char (list_ascii_of_string s).
Proof.
  simpl. intros H. split.
  - apply Ascii.eqb_neq. intros ->. apply H. now left.
  - intros Hin. apply H. now right.
Qed.

Lemma stripTrailingSlashes_segment s :
  segment s -> stripTrailingSlashes s = s.
Proof.
  intros [Hne Hns]. induction s as [|a s IH]; [congruence|].
  apply no_slash_cons in Hns as [Ha Hs]. simpl.
  destruct s as [|b s].
  - simpl. now rewrite Ha.
  - rewrite IH by (auto; discriminate). reflexivity.
Qed.

Lemma stripTrailingSlashes_app p t :
  stripTrailingSlashes t <> "" ->
  stripTrailingSlashes (p ++ t) = p ++ stripTrailingSlashes t.
Proof.
  intros Ht. induction p as [|a p IH]; simpl; [reflexivity|].
  rewrite IH. destruct (p ++ stripTrailingSlashes t) eqn:E; [|reflexivity].
  destruct p; simpl in E; [congruence | discriminate].
Qed.

Lemma LastIndexByte_no_slash s :
  ~ In "/"%char (list_ascii_of_string s) -> LastIndexByte s "/" = -1.
Proof.
  induction s as [|a s IH]; intros H; [reflexivity|].
  apply no_slash_cons in H as [Ha Hs]. simpl.
  rewrite (IH Hs). simpl. now rewrite Ha.
Qed.

Lemma LastIndexByte_qualified p seg :
  ~ In "/"%char (list_ascii_of_string seg) ->
  LastIndexByte (p ++ "/" ++ seg) "/" = Z.of_nat (String.length p).
Proof.
  intros Hs. induction p as [|a p IH].
  - simpl. rewrite (LastIndexByte_no_slash _ Hs). reflexivity.
  - change (String a p ++ "/" ++ seg) with (String a (p ++ "/" ++ seg)).
    cbn [LastIndexByte String.length]. rewrite IH.
    destruct (0 <=? Z.of_nat (String.length p)) eqn:E; [lia|].
    apply Z.leb_gt in E. lia.
Qed.

Lemma slice_from_qualified p seg :
  slice_from (S (String.length p)) (p ++ "/" ++ seg) = seg.
Proof.
  induction p as [|a p IH]; [reflexivity|]. exact IH.
Qed.

Lemma eqb_empty_false s : s <> "" -> (s =? "")%string = false.
Proof. intros H. now apply String.eqb_neq. Qed.

Lemma path_Base_segment seg : segment seg -> path_Base seg = seg.
Proof.
  intros Hseg. pose proof Hseg as [Hne Hns]. unfold path_Base.
  rewrite (eqb_empty_false _ Hne), (stripTrailingSlashes_segment _ Hseg).
  rewrite (LastIndexByte_no_slash _ Hns). simpl.
  now rewrite (eqb_empty_false _ Hne).
Qed.

Lemma path_Base_qualified prefix seg :
  segment seg -> path_Base (prefix ++ "/" ++ seg) = seg.
Proof.
  intros Hseg. pose proof Hseg as [Hne Hns]. unfold path_Base.
  assert (Hnz : prefix ++ "/" ++ seg <> "") by (destruct prefix; discriminate).
  rewrite (eqb_empty_false _ Hnz).
  assert (Hstrip : stripTrailingSlashes (prefix ++ "/" ++ seg) = prefix ++ "/" ++ seg).
  { rewrite stripTrailingSlashes_app.
    - f_equal. change ("/" ++ seg) with (String "/" seg).
      cbn [stripTrailingSlashes]. rewrite (stripTrailingSlashes_segment _ Hseg).
      destruct seg; [congruence | reflexivity].
    - change ("/" ++ seg) with (String "/" seg).
      cbn [stripTrailingSlashes]. rewrite (stripTrailingSlashes_segment _ Hseg).
      destruct seg; [congruence | discriminate]. }
  rewrite Hstrip, (LastIndexByte_qualified _ _ Hns).
  destruct (0 <=? Z.of_nat (String.length prefix)) eqn:E;
    [| apply Z.leb_gt in E; lia].
  replace (Z.to_nat (Z.of_nat (String.length prefix) + 1))
    with (S (String.length prefix)) by lia.
  rewrite slice_from_qualified. now rewrite (eqb_empty_false _ Hne).
Qed.

End PathBase.

(** ** The inventory fetcher *)

Section Fetcher.

Import fetcher.
Local Open Scope list_scope.

Lemma appendInstances_populated l :
  forallb populated l = true ->
  forall vms, gcp.appendInstances l vms = Returns (vms ++ flat_map record_of l)%list.
Proof.
  induction l as [|i l IH]; intros Hl vms; simpl.
  - now rewrite app_nil_r.
  - simpl in Hl. apply andb_true_iff in Hl as [Hi Hl].
    destruct i as [[[n|] [z|]]|]; try discriminate. simpl.
    rewrite (IH Hl), <- app_assoc. reflexivity.
Qed.

(** One round of the loop, as the source writes it: call [Next], stop on
    [iterator.Done], give up on any other error, else read the pair and go
    round again. *)
Lemma fetchLoop_Next it vms :
  gcp.fetchLoop it vms
  = let '((p, err), it') := compute.Next it in
    match err with
    | Some e =>
        if is_Done e then Returns (vms, None)
        else Returns ([], Some (Errorf_w "failed to iterate over instances: " e))
    | None =>
        match compute.Value p with
        | Some value =>
            if 0 <? len (computepb.Instances value)
            then bind (gcp.appendInstances (computepb.Instances value) vms)
                      (fun vms' => gcp.fetchLoop it' vms')
            else gcp.fetchLoop it' vms
        | None => gcp.fetchLoop it' vms
        end
    end.
Proof. destruct it as [|[p|e] it']; reflexivity. Qed.

Lemma fetchLoop_Item p it vms :
  forallb populated (instances_of p) = true ->
  gcp.fetchLoop (compute.Item p :: it) vms
  = gcp.fetchLoop it (vms ++ flat_map record_of (instances_of p))%list.
Proof.
  unfold instances_of. intros Hp. simpl.
  destruct (compute.Value p) as [value|]; simpl; [|now rewrite app_nil_r].
  destruct (computepb.Instances value) as [|i l] eqn:E.
  - simpl. now rewrite app_nil_r.
  - replace (0 <? len (i :: l)) with true
      by (symmetry; apply Z.ltb_lt; unfold len; simpl; lia).
    now rewrite (appendInstances_populated _ Hp).
Qed.

Lemma fetchLoop_pages pages :
  well_formed pages = true ->
  forall it vms,
    gcp.fetchLoop (map compute.Item pages ++ it) vms
    = gcp.fetchLoop it (vms ++ records pages)%list.
Proof.
  unfold well_formed, records.
  induction pages as [|p pages IH]; intros Hwf it vms.
  - simpl. now rewrite app_nil_r.
  - cbn [forallb] in Hwf. apply andb_true_iff in Hwf as [Hp Hwf].
    cbn [map app flat_map]. rewrite (fetchLoop_Item _ _ _ Hp), (IH Hwf).
    now rewrite app_assoc.
Qed.

Lemma fetchLoop_skip it1 p it2 :
  skippable p ->
  forall vms,
    gcp.fetchLoop (it1 ++ compute.Item p :: it2) vms = gcp.fetchLoop (it1 ++ it2) vms.
Proof.
  unfold skippable, instances_of. intros Hp.
  induction it1 as [|r it1 IH]; intros vms.
  - simpl. destruct (compute.Value p) as [value|]; [|reflexivity].
    now rewrite Hp.
  - destruct r as [q|e]; [|reflexivity]. simpl.
    destruct (compute.Value q) as [value|]; [|apply IH].
    destruct (0 <? len (computepb.Instances value)); [|apply IH].
    destruct (gcp.appendInstances (computepb.Instances value) vms); simpl;
      [apply IH | reflexivity].
Qed.

Lemma fetchLoop_returns it :
  forallb well_formed_response it = true ->
  forall vms, exists r, gcp.fetchLoop it vms = Returns r.
Proof.
  induction it as [|r it IH]; intros Hwf vms.
  - eexists. reflexivity.
  - simpl in Hwf. apply andb_true_iff in Hwf as [Hr Hwf].
    destruct r as [p|e].
    + rewrite (fetchLoop_Item _ _ _ Hr). apply (IH Hwf).
    + simpl. destruct (is_Done e); eexists; reflexivity.
Qed.

Lemma fetchLoop_failure pages e rest :
  is_Done e = false ->
  forall vms r,
    gcp.fetchLoop (map compute.Item pages ++ compute.Failure e :: rest) vms = Returns r ->
    r = ([], Some (Errorf_w "failed to iterate over instances: " e)).
Proof.
  intros He. induction pages as [|p pages IH]; intros vms r; simpl.
  - rewrite He. congruence.
  - destruct (compute.Value p) as [value|]; [|apply IH].
    destruct (0 <? len (computepb.Instances value)); [|apply IH].
    destruct (gcp.appendInstances (computepb.Instances value) vms); simpl;
      [apply IH | discriminate].
Qed.

Lemma made_from_record n z :
  made_from (Some {| computepb.Name := Some n; computepb.Zone := Some z |})
            {| gcp.Name := n; gcp.Zone := path_Base z |}.
Proof.
  eexists. split; [reflexivity|]. split; [reflexivity|]. simpl.
  split.
  - intros prefix seg Hseg [= ->]. now apply path_Base_qualified.
  - intros seg Hseg [= ->]. now apply path_Base_segment.
Qed.

Lemma made_from_records l :
  forallb populated l = true -> Forall2 made_from l (flat_map record_of l).
Proof.
  induction l as [|i l IH]; intros Hl; simpl; [constructor|].
  simpl in Hl. apply andb_true_iff in Hl as [Hi Hl].
  destruct i as [[[n|] [z|]]|]; try discriminate. simpl.
  constructor; [apply made_from_record | apply (IH Hl)].
Qed.

Lemma made_from_pages pages :
  well_formed pages = true ->
  Forall2 made_from (flat_map instances_of pages) (records pages).
Proof.
  unfold well_formed, records.
  induction pages as [|p pages IH]; intros Hwf; simpl; [constructor|].
  simpl in Hwf. apply andb_true_iff in Hwf as [Hp Hwf].
  apply Forall2_app; [now apply made_from_records | apply (IH Hwf)].
Qed.

(** The test TestFetchInstances_Success, evaluated. *)
Example FetchInstances_two_scopes :
  gcp.FetchInstances [compute.Item Samples.page1; compute.Item Samples.page2]
  = Returns ([ {| gcp.Name := "instance-1"; gcp.Zone := "us-central1-a" |};
               {| gcp.Name := "instance-2"; gcp.Zone := "europe-west1-b" |} ], None).
Proof. reflexivity. Qed.

(** C7.  The fetch is atomic.  When every instance entry of the pages is
    populated, draining them all returns the records of all pages in
    iteration order and no error, and a failure of [Next] after any number of
    pages returns the nil slice and the wrapped failure.  Whatever the pages
    hold, a run that meets a failure never returns anything else: no part of
    the inventory comes back, and the error unwraps to the cause. *)
Theorem FetchInstances_atomic :
  forall pages,
    (well_formed pages = true ->
       gcp.FetchInstances (map compute.Item pages) = Returns (records pages, None)
       /\ forall e rest, is_Done e = false ->
            gcp.FetchInstances (map compute.Item pages ++ compute.Failure e :: rest)
            = Returns ([], Some (Errorf_w "failed to iterate over instances: " e)))
    /\ (forall e rest r, is_Done e = false ->
          gcp.FetchInstances (map compute.Item pages ++ compute.Failure e :: rest)
          = Returns r ->
          r = ([], Some (Errorf_w "failed to iterate over instances: " e))
          /\ Unwrap (Errorf_w "failed to iterate over instances: " e) = Some e).
Proof.
  intros pages. unfold gcp.FetchInstances. split.
  - intros Hwf. split.
    + rewrite <- (app_nil_r (map compute.Item pages)).
      now rewrite (fetchLoop_pages _ Hwf).
    + intros e rest He. rewrite (fetchLoop_pages _ Hwf). simpl. now rewrite He.
  - intros e rest r He Hr. split; [|reflexivity].
    eapply fetchLoop_failure; eassumption.
Qed.

Lemma FetchInstances_atomic_witness :
  gcp.FetchInstances
    (map compute.Item [Samples.page1; Samples.page2]
     ++ compute.Failure Samples.apiError :: [])
  = Returns ([], Some (wrapError "failed to iterate over instances: GCP API error"
                                 Samples.apiError)).
Proof.
  exact (proj2 (proj1 (FetchInstances_atomic [Samples.page1; Samples.page2]) eq_refl)
           Samples.apiError [] eq_refl).
Defined.

(** C8.  Zone normalisation.  For pages of populated instance entries,
    FetchInstances returns one record per entry, in order; each record has
    the name of its entry, and when the zone of the entry is a qualified
    path [prefix/seg], or the bare segment [seg], the record's zone is
    [seg]. *)
Theorem FetchInstances_zone_last_segment :
  forall pages,
    well_formed pages = true ->
    exists vms,
      gcp.FetchInstances (map compute.Item pages) = Returns (vms, None)
      /\ Forall2 made_from (flat_map instances_of pages) vms.
Proof.
  intros pages Hwf. exists (records pages). split.
  - unfold gcp.FetchInstances. rewrite <- (app_nil_r (map compute.Item pages)).
    now rewrite (fetchLoop_pages _ Hwf).
  - now apply made_from_pages.
Qed.

Lemma FetchInstances_zone_last_segment_witness :
  exists vms,
    gcp.FetchInstances (map compute.Item [Samples.page1; Samples.page2])
    = Returns (vms, None)
    /\ Forall2 made_from
         (flat_map instances_of [Samples.page1; Samples.page2]) vms.
Proof.
  exact (FetchInstances_zone_last_segment [Samples.page1; Samples.page2] eq_refl).
Defined.

(** An instance entry with a nil Zone is dereferenced all the same: the
    call panics, so FetchInstances does not return for every page content. *)
Lemma FetchInstances_nil_zone_panics :
  gcp.FetchInstances [compute.Item Samples.zonelessPage] = Panics
  /\ ~ (forall it, exists r, gcp.FetchInstances it = Returns r).
Proof.
  split; [reflexivity|]. intros H.
  destruct (H [compute.Item Samples.zonelessPage]) as [r Hr]. discriminate Hr.
Qed.

(** C10, amended.  Over iterators whose instance entries are populated,
    FetchInstances always returns, whether [Next] fails or not.  A
    scoped-list entry whose Value is nil or whose instance list is empty is
    skipped: taking it out of the iteration changes nothing, whatever the
    other responses are.  A project whose entries hold no instance at all
    gets the nil slice and no error. *)
Theorem FetchInstances_total_on_populated :
  (forall it, forallb well_formed_response it = true ->
     exists r, gcp.FetchInstances it = Returns r)
  /\ (forall it1 p it2, skippable p ->
        gcp.FetchInstances (it1 ++ compute.Item p :: it2)
        = gcp.FetchInstances (it1 ++ it2))
  /\ (forall pages, Forall skippable pages ->
        gcp.FetchInstances (map compute.Item pages) = Returns ([], None)).
Proof.
  unfold gcp.FetchInstances. split; [|split].
  - intros it Hwf. now apply fetchLoop_returns.
  - intros it1 p it2 Hp. now apply fetchLoop_skip.
  - intros pages Hs. induction Hs as [|p pages Hp _ IH]; [reflexivity|].
    cbn [map]. rewrite <- IH. exact (fetchLoop_skip [] p _ Hp []).
Qed.

Lemma FetchInstances_total_on_populated_witness :
  (exists r,
     gcp.FetchInstances
       [compute.Item Samples.nilPage; compute.Item Samples.page1;
        compute.Failure Samples.apiError] = Returns r)
  /\ gcp.FetchInstances
       ([compute.Item Samples.page1] ++ compute.Item Samples.nilPage
        :: [compute.Item Samples.page2])
     = gcp.FetchInstances ([compute.Item Samples.page1] ++ [compute.Item Samples.page2])
  /\ gcp.FetchInstances (map compute.Item [Samples.nilPage; Samples.emptyPage])
     = Returns ([], None).
Proof.
  split; [|split].
  - exact (proj1 FetchInstances_total_on_populated
             [compute.Item Samples.nilPage; compute.Item Samples.page1;
              compute.Failure Samples.apiError] eq_refl).
  - exact (proj1 (proj2 FetchInstances_total_on_populated)
             [compute.Item Samples.page1] Samples.nilPage
             [compute.Item Samples.page2] eq_refl).
  - exact (proj2 (proj2 FetchInstances_total_on_populated)
             [Samples.nilPage; Samples.emptyPage]
             (Forall_cons Samples.nilPage (eq_refl : skippable Samples.nilPage)
                (Forall_cons Samples.emptyPage (eq_refl : skippable Samples.emptyPage)
                   (Forall_nil _)))).
Defined.

End Fetcher.

(** ** The selection state machine *)

Section Selection.

Context {sp : spinner.Lib}.
Import tui.
Local Open Scope list_scope.

(** *** One step of [Update] *)

Lemma index_in_bounds {A : Type} (l : list A) (i : Z) :
  0 <= i < len l -> exists a, index l i = Returns a.
Proof.
  unfold index, len. intros Hi.
  destruct (i <? 0) eqn:E; [apply Z.ltb_lt in E; lia|].
  destruct (nth_error l (Z.to_nat i)) as [a|] eqn:En; [now exists a|].
  apply nth_error_None in En. lia.
Qed.

Lemma Update_not_fetch_result m msg m' c :
  fetch_result msg = false -> Update m msg = Returns (m', c) -> change m m'.
Proof.
  destruct msg as [s|l|e|t|]; try discriminate; intros _; unfold Update.
  - destruct ((s =? "ctrl+c")%string || (s =? "q")%string);
      [intros; returned; constructor|].
    destruct ((s =? "up")%string || (s =? "k")%string).
    { destruct (0 <? cursor m) eqn:E; intros; returned;
        [apply change_up; now apply Z.ltb_lt | constructor]. }
    destruct ((s =? "down")%string || (s =? "j")%string).
    { destruct (cursor m <? len (vms m) - 1) eqn:E; intros; returned;
        [apply change_down; now apply Z.ltb_lt | constructor]. }
    destruct (s =? "enter")%string; [|intros; returned; constructor].
    destruct (len (vms m) =? 0); [intros; returned; constructor|].
    destruct (index (vms m) (cursor m)); simpl; intros; returned; constructor.
  - destruct (spinner.Update (spinner m) t) as [s cmd]. intros; returned.
    apply change_spinner.
  - intros; returned; constructor.
Qed.


(** The cursor arithmetic never leaves the range of int: with a slice
    length and a cursor that are ints, the cursor after [Update] is an int
    again, so the integers of the model are the ints of the program. *)
Lemma Update_cursor_is_int m msg m' c :
  is_int (len (vms m)) -> is_int (cursor m) ->
  Update m msg = Returns (m', c) -> is_int (cursor m').
Proof.
  unfold is_int. intros Hlen Hcur Hu. destruct (fetch_result msg) eqn:Hr.
  - destruct msg; try discriminate; simpl in Hu; returned; exact Hcur.
  - destruct (Update_not_fetch_result _ _ _ _ Hr Hu); simpl; lia.
Qed.

(** [Init] is where the fetch is issued. *)
Lemma Init_issues_fetch m : issues_fetch (Init m) = true.
Proof. reflexivity. Qed.

(** *** Invariants *)

Lemma change_fresh m m' : change m m' -> fresh m -> fresh m'.
Proof.
  unfold fresh. intros Hc Hm.
  destruct Hc as [|Hup|Hdown|s]; simpl; auto; intros Hl;
    destruct (Hm Hl) as [Hv Hz]; exfalso;
    [lia | rewrite Hv in Hdown; unfold len in Hdown; simpl in Hdown; lia].
Qed.

Lemma change_cursor_ok m m' : change m m' -> cursor_ok m -> cursor_ok m'.
Proof.
  unfold cursor_ok. intros Hc Hm.
  destruct Hc as [|Hup|Hdown|s]; simpl; auto;
    destruct (vms m) as [|vm l]; unfold len in *; cbn [List.length] in *; lia.
Qed.

Lemma change_loading m m' : change m m' -> loading m' = loading m.
Proof. now intros [|?|?|?]. Qed.

Lemma Update_fresh m msg m' c :
  fresh m -> Update m msg = Returns (m', c) -> fresh m'.
Proof.
  intros Hm Hu. destruct (fetch_result msg) eqn:Hf.
  - destruct msg; try discriminate; simpl in Hu; returned;
      intros Hl; discriminate Hl.
  - eapply change_fresh; [eapply Update_not_fetch_result|]; eassumption.
Qed.

Lemma cursor_ok_index m :
  cursor_ok m -> vms m <> [] -> exists vm, index (vms m) (cursor m) = Returns vm.
Proof.
  unfold cursor_ok. intros Hc Hne. apply index_in_bounds.
  destruct (vms m); [congruence | exact Hc].
Qed.

(** [Update] returns whenever the cursor is in bounds. *)
Lemma Update_returns m msg :
  cursor_ok m -> exists m' c, Update m msg = Returns (m', c).
Proof.
  intros Hc. destruct msg as [s|l|e|t|]; unfold Update;
    try (do 2 eexists; reflexivity).
  - destruct ((s =? "ctrl+c")%string || (s =? "q")%string);
      [do 2 eexists; reflexivity|].
    destruct ((s =? "up")%string || (s =? "k")%string);
      [do 2 eexists; reflexivity|].
    destruct ((s =? "down")%string || (s =? "j")%string);
      [do 2 eexists; reflexivity|].
    destruct (s =? "enter")%string; [|do 2 eexists; reflexivity].
    destruct (len (vms m) =? 0) eqn:E; [do 2 eexists; reflexivity|].
    destruct (cursor_ok_index m Hc) as [vm Hvm].
    { intros Hv. rewrite Hv in E. discriminate E. }
    rewrite Hvm. simpl. do 2 eexists; reflexivity.
  - destruct (spinner.Update (spinner m) t) as [s cmd].
    do 2 eexists; reflexivity.
Qed.

(** *** The event loop *)

Lemma run_cons m msg rest m' c :
  Update m msg = Returns (m', c) ->
  run m (msg :: rest)
  = match c with
    | Quit => Returns (m', [Quit])
    | _ => bind (run m' rest) (fun '(m'', cmds) => Returns (m'', c :: cmds))
    end.
Proof. intros Hu. simpl. now rewrite Hu. Qed.

(** A property every [Update] keeps holds at the end of every run. *)
Lemma run_invariant (P : Model -> Prop) :
  (forall m msg m' c, P m -> Update m msg = Returns (m', c) -> P m') ->
  forall msgs m m' cmds, P m -> run m msgs = Returns (m', cmds) -> P m'.
Proof.
  intros Hstep. induction msgs as [|msg rest IH]; intros m m' cmds Hm Hr.
  - simpl in Hr. now returned.
  - simpl in Hr. destruct (Update m msg) as [[m1 c]|] eqn:Hu; [|discriminate Hr].
    pose proof (Hstep _ _ _ _ Hm Hu) as Hm1. simpl in Hr.
    destruct c; try (injection Hr as <- <-; exact Hm1);
      destruct (run m1 rest) as [[m2 cmds2]|] eqn:Hr2; try discriminate Hr;
      simpl in Hr; injection Hr as <- <-; eapply IH; eassumption.
Qed.

Lemma NewModel_fresh c pid : fresh (NewModel c pid).
Proof. intros _. split; reflexivity. Qed.

Lemma reachable_fresh m : reachable m -> fresh m.
Proof.
  intros (c & pid & msgs & cmds & Hr).
  eapply (run_invariant fresh); [|apply NewModel_fresh|exact Hr].
  intros; eapply Update_fresh; eassumption.
Qed.

Lemma Update_one_shot m msg :
  cursor_ok m -> fresh m ->
  (fetch_result msg = true -> loading m = true) ->
  exists m' c,
    Update m msg = Returns (m', c) /\ cursor_ok m' /\ fresh m'
    /\ loading m' = if fetch_result msg then false else loading m.
Proof.
  intros Hc Hf Hl. destruct (Update_returns m msg Hc) as (m' & c & Hu).
  exists m', c. split; [exact Hu|].
  destruct (fetch_result msg) eqn:Hr.
  - destruct (Hf (Hl eq_refl)) as [Hv Hz].
    destruct msg as [s|l|e|t|]; try discriminate; simpl in Hu; returned;
      unfold cursor_ok, fresh; simpl; (split; [|split; [discriminate|reflexivity]]).
    + rewrite Hz. destruct l; unfold len; cbn [List.length]; lia.
    + now rewrite Hv.
  - pose proof (Update_not_fetch_result _ _ _ _ Hr Hu) as Hch.
    split; [|split].
    + eapply change_cursor_ok; eassumption.
    + eapply change_fresh; eassumption.
    + now apply change_loading.
Qed.

(** With at most one fetch result, delivered while the model is loading,
    the loop never panics and keeps the cursor in bounds. *)
Lemma run_one_shot msgs :
  forall m, cursor_ok m -> fresh m ->
    (fetch_results msgs <= if loading m then 1 else 0)%nat ->
    exists m' cmds, run m msgs = Returns (m', cmds) /\ cursor_ok m' /\ fresh m'.
Proof.
  unfold fetch_results.
  induction msgs as [|msg rest IH]; intros m Hc Hf Hn.
  - exists m, []. auto.
  - cbn [filter] in Hn.
    destruct (Update_one_shot m msg Hc Hf) as (m1 & c & Hu & Hc1 & Hf1 & Hl1).
    { intros Hr. rewrite Hr in Hn. cbn [List.length] in Hn.
      destruct (loading m); [reflexivity | lia]. }
    destruct (IH m1 Hc1 Hf1) as (m2 & cmds & Hr2 & Hc2 & Hf2).
    { rewrite Hl1. destruct (fetch_result msg); [|exact Hn].
      cbn [List.length] in Hn. destruct (loading m); lia. }
    rewrite (run_cons _ _ _ _ _ Hu).
    destruct c; rewrite ?Hr2; simpl; eauto.
Qed.

Lemma NewModel_cursor_ok c pid : cursor_ok (NewModel c pid).
Proof. reflexivity. Qed.

Lemma run_reachable_cursor_ok m : run_reachable m -> cursor_ok m.
Proof.
  intros (c & pid & msgs & cmds & Hn & Hr).
  destruct (run_one_shot msgs (NewModel c pid)) as (m' & cmds' & Hr' & Hc & _);
    [apply NewModel_cursor_ok | apply NewModel_fresh | exact Hn |].
  rewrite Hr in Hr'. now returned.
Qed.

(** *** The keys *)

Lemma KeyUp_at_top m k :
  In k ["up"; "k"] -> cursor m <= 0 -> Update m (KeyMsg k) = Returns (m, Nil).
Proof.
  intros [<-|[<-|[]]] Hz; unfold Update; simpl;
    (replace (0 <? cursor m) with false by (symmetry; apply Z.ltb_ge; lia));
    reflexivity.
Qed.

Lemma KeyDown_at_bottom m k :
  In k ["down"; "j"] -> len (vms m) - 1 <= cursor m ->
  Update m (KeyMsg k) = Returns (m, Nil).
Proof.
  intros [<-|[<-|[]]] Hz; unfold Update; simpl;
    (replace (cursor m <? len (vms m) - 1) with false
       by (symmetry; apply Z.ltb_ge; lia));
    reflexivity.
Qed.

Lemma KeyUp_moves m k :
  In k ["up"; "k"] -> 0 < cursor m ->
  Update m (KeyMsg k) = Returns (set_cursor m (cursor m - 1), Nil).
Proof.
  intros [<-|[<-|[]]] Hz; unfold Update; simpl;
    (replace (0 <? cursor m) with true by (symmetry; apply Z.ltb_lt; lia));
    reflexivity.
Qed.

Lemma KeyDown_moves m k :
  In k ["down"; "j"] -> cursor m < len (vms m) - 1 ->
  Update m (KeyMsg k) = Returns (set_cursor m (cursor m + 1), Nil).
Proof.
  intros [<-|[<-|[]]] Hz; unfold Update; simpl;
    (replace (cursor m <? len (vms m) - 1) with true
       by (symmetry; apply Z.ltb_lt; lia));
    reflexivity.
Qed.

Lemma KeyConfirm_empty m :
  vms m = [] -> Update m (KeyMsg "enter") = Returns (m, Nil).
Proof. intros Hv. unfold Update. simpl. now rewrite Hv. Qed.

Lemma KeyConfirm_launch m vm :
  vms m <> [] -> index (vms m) (cursor m) = Returns vm ->
  Update m (KeyMsg "enter") = Returns (m, LaunchSession vm (projectID m)).
Proof.
  intros Hv Hi. unfold Update. simpl.
  destruct (vms m) as [|a l] eqn:E; [congruence|].
  replace (len (a :: l) =? 0) with false
    by (symmetry; apply Z.eqb_neq; unfold len; cbn [List.length]; lia).
  now rewrite Hi.
Qed.


Lemma run_repeat_noop m msg :
  Update m msg = Returns (m, Nil) ->
  forall n, run m (repeat msg n) = Returns (m, repeat Nil n).
Proof.
  intros Hu. induction n as [|n IH]; [reflexivity|].
  cbn [repeat]. rewrite (run_cons _ _ _ _ _ Hu), IH. reflexivity.
Qed.

(** *** The properties of the specification *)

Lemma reachable_cursor_nonneg m : reachable m -> 0 <= cursor m.
Proof.
  intros (c & pid & msgs & cmds & Hr).
  eapply (run_invariant (fun x => 0 <= cursor x)); [| |exact Hr]; [|simpl; lia].
  intros a msg b cmd Ha Hu. destruct (fetch_result msg) eqn:Hf.
  - destruct msg; try discriminate; simpl in Hu; returned; exact Ha.
  - destruct (Update_not_fetch_result _ _ _ _ Hf Hu); simpl; lia.
Qed.

(** C1, amended.  In every Ready state with a non-empty inventory that a
    run with at most one fetch result reaches, the cursor indexes a record,
    and enter returns the model unchanged together with exactly one command:
    the process [gcloud compute ssh NAME --zone ZONE --project PROJECT] for
    the name and zone of that record and the project of the model.
    Scenario A: once the two records have arrived the model is Ready with
    the cursor at 0 and two records; down moves the cursor to 1; enter then
    returns the process for vm-2 in europe-west1-b, and the loop hands out
    nothing else. *)
Theorem KeyConfirm_launches_selected :
  (forall m, run_reachable m -> phase m = Ready -> vms m <> [] ->
     exists vm c,
       index (vms m) (cursor m) = Returns vm
       /\ Update m (KeyMsg "enter") = Returns (m, ExecProcess c)
       /\ exec.Args c
          = ["gcloud"; "compute"; "ssh"; gcp.Name vm;
             "--zone"; gcp.Zone vm; "--project"; projectID m])
  /\ (forall c pid, exists m1 m2 cA,
        Update (NewModel c pid)
          (vmsMsg [ {| gcp.Name := "vm-1"; gcp.Zone := "us-central1-a" |};
                    {| gcp.Name := "vm-2"; gcp.Zone := "europe-west1-b" |} ])
        = Returns (m1, Nil)
        /\ phase m1 = Ready /\ cursor m1 = 0 /\ len (vms m1) = 2
        /\ Update m1 (KeyMsg "down") = Returns (m2, Nil) /\ cursor m2 = 1
        /\ Update m2 (KeyMsg "enter") = Returns (m2, ExecProcess cA)
        /\ exec.Args cA
           = ["gcloud"; "compute"; "ssh"; "vm-2";
              "--zone"; "europe-west1-b"; "--project"; pid]
        /\ run (NewModel c pid)
             [vmsMsg [ {| gcp.Name := "vm-1"; gcp.Zone := "us-central1-a" |};
                       {| gcp.Name := "vm-2"; gcp.Zone := "europe-west1-b" |} ];
              KeyMsg "down"; KeyMsg "enter"]
           = Returns (m2, [Nil; Nil; ExecProcess cA])).
Proof.
  split.
  - intros m Hr _ Hv.
    destruct (cursor_ok_index m (run_reachable_cursor_ok m Hr) Hv) as [vm Hvm].
    exists vm. eexists. split; [exact Hvm|]. split.
    + rewrite (KeyConfirm_launch m vm Hv Hvm). unfold LaunchSession. reflexivity.
    + reflexivity.
  - intros c pid. do 3 eexists. repeat split.
Qed.

(** C2, amended.  From the initial model, any sequence of messages with
    at most one fetch result among them is processed without a panic and ends
    in a model whose cursor is 0 when the inventory is empty and within
    [0, len) otherwise; the record under the cursor can then be indexed. *)
Theorem cursor_in_bounds_with_one_fetch :
  forall c pid msgs,
    (fetch_results msgs <= 1)%nat ->
    exists m cmds,
      run (NewModel c pid) msgs = Returns (m, cmds)
      /\ cursor_ok m
      /\ (vms m <> [] -> exists vm, index (vms m) (cursor m) = Returns vm).
Proof.
  intros c pid msgs Hn.
  destruct (run_one_shot msgs (NewModel c pid)) as (m & cmds & Hr & Hc & _);
    [apply NewModel_cursor_ok | apply NewModel_fresh | exact Hn |].
  exists m, cmds. split; [exact Hr|]. split; [exact Hc|].
  now apply cursor_ok_index.
Qed.

(** C3.  A fetch success delivered to a reachable model that is still
    loading makes it Ready, with the delivered inventory and the cursor
    at 0; the inventory may have any length. *)
Theorem FetchSucceeded_in_Loading :
  forall m l, reachable m -> phase m = Loading ->
    exists m', Update m (vmsMsg l) = Returns (m', Nil)
      /\ phase m' = Ready /\ vms m' = l /\ cursor m' = 0.
Proof.
  intros m l Hr Hp. eexists. split; [reflexivity|].
  unfold phase in *. simpl. destruct (err m); [discriminate|].
  destruct (loading m) eqn:Hl; [|discriminate].
  repeat split. now apply (reachable_fresh m Hr).
Qed.

(** C4.  The cursor saturates.  In every state, hence in every reachable
    Ready one: with the cursor at 0 any number of up keys leaves the model
    as it is; with the cursor on the last record any number of down keys
    does; with the cursor above 0 an up key takes 1 from it, and with the
    cursor before the last record a down key adds 1 to it. *)
Theorem cursor_saturates :
  forall m up down, In up ["up"; "k"] -> In down ["down"; "j"] ->
    (cursor m = 0 ->
       forall n, run m (repeat (KeyMsg up) n) = Returns (m, repeat Nil n))
    /\ (cursor m = len (vms m) - 1 ->
          forall n, run m (repeat (KeyMsg down) n) = Returns (m, repeat Nil n))
    /\ (0 < cursor m ->
          Update m (KeyMsg up) = Returns (set_cursor m (cursor m - 1), Nil))
    /\ (cursor m < len (vms m) - 1 ->
          Update m (KeyMsg down) = Returns (set_cursor m (cursor m + 1), Nil)).
Proof.
  intros m up down Hup Hdown. repeat split.
  - intros Hz. apply run_repeat_noop, KeyUp_at_top; [exact Hup | lia].
  - intros Hz. apply run_repeat_noop, KeyDown_at_bottom; [exact Hdown | lia].
  - now apply KeyUp_moves.
  - now apply KeyDown_moves.
Qed.

(** C5, amended.  With an empty inventory enter returns the model
    unchanged and no command, in every state, and in every reachable state
    the down keys do the same.  In a Ready state that a run with at most one
    fetch result reaches the up keys do so too.  With one record, in such a
    state, the cursor is 0 and up and down leave it there, but enter is
    active: it returns the process
    [gcloud compute ssh NAME --zone ZONE --project PROJECT] for that record,
    which is not the nil command. *)
Theorem empty_inventory_is_inert :
  (forall m, vms m = [] -> Update m (KeyMsg "enter") = Returns (m, Nil))
  /\ (forall m, reachable m -> vms m = [] ->
        forall k, In k ["down"; "j"] -> Update m (KeyMsg k) = Returns (m, Nil))
  /\ (forall m, run_reachable m -> phase m = Ready ->
        (vms m = [] ->
           forall k, In k ["up"; "k"; "down"; "j"; "enter"] ->
             Update m (KeyMsg k) = Returns (m, Nil))
        /\ (forall vm, vms m = [vm] ->
              cursor m = 0
              /\ (forall k, In k ["up"; "k"; "down"; "j"] ->
                    Update m (KeyMsg k) = Returns (m, Nil))
              /\ exists c,
                   Update m (KeyMsg "enter") = Returns (m, ExecProcess c)
                   /\ ExecProcess c <> Nil
                   /\ exec.Args c
                      = ["gcloud"; "compute"; "ssh"; gcp.Name vm;
                         "--zone"; gcp.Zone vm; "--project"; projectID m])).
Proof.
  split; [exact KeyConfirm_empty|]. split.
  { intros m Hr Hv k Hk. apply KeyDown_at_bottom; [exact Hk|].
    pose proof (reachable_cursor_nonneg m Hr). rewrite Hv. unfold len. simpl. lia. }
  intros m Hr _. pose proof (run_reachable_cursor_ok m Hr) as Hc.
  unfold cursor_ok in Hc. split.
  - intros Hv k Hk. rewrite Hv in Hc.
    destruct Hk as [<-|[<-|Hk]]; [apply KeyUp_at_top; simpl; auto; lia ..|].
    destruct Hk as [<-|[<-|Hk]];
      [apply KeyDown_at_bottom; simpl; auto; rewrite Hv; unfold len; simpl; lia ..|].
    destruct Hk as [<-|[]]. now apply KeyConfirm_empty.
  - intros vm Hv. rewrite Hv in Hc. unfold len in Hc. cbn [List.length] in Hc.
    assert (Hz : cursor m = 0) by lia.
    split; [exact Hz|]. split.
    + intros k Hk.
      destruct Hk as [<-|[<-|Hk]]; [apply KeyUp_at_top; simpl; auto; lia ..|].
      destruct Hk as [<-|[<-|[]]];
        apply KeyDown_at_bottom; simpl; auto; rewrite Hv; unfold len; simpl; lia.
    + assert (Hi : index (vms m) (cursor m) = Returns vm)
        by (rewrite Hv, Hz; reflexivity).
      assert (Hne : vms m <> []) by (rewrite Hv; discriminate).
      eexists. split.
      { rewrite (KeyConfirm_launch m vm Hne Hi). unfold LaunchSession. reflexivity. }
      split; [discriminate | reflexivity].
Qed.

(** *** After the fetch failed *)



Lemma Key_idle m k :
  vms m = [] -> cursor m = 0 -> k <> "ctrl+c" -> k <> "q" ->
  Update m (KeyMsg k) = Returns (m, Nil).
Proof.
  intros Hv Hz Hc Hq. unfold Update.
  apply String.eqb_neq in Hc, Hq. rewrite Hc, Hq. simpl.
  destruct ((k =? "up")%string || (k =? "k")%string); [now rewrite Hz|].
  destruct ((k =? "down")%string || (k =? "j")%string); [now rewrite Hv, Hz|].
  destruct (k =? "enter")%string; [now rewrite Hv | reflexivity].
Qed.



(** C9.  Processing a fetch success assigns the inventory and the loading
    flag and nothing else: cursor, error, project, client and spinner are
    those of the model before.  Every reachable model that is still loading
    has its cursor at 0, which is why the cursor is 0 after the fetch; a
    model with another cursor keeps that cursor through a fetch success. *)
Theorem vmsMsg_leaves_cursor :
  (forall m l, exists m',
      Update m (vmsMsg l) = Returns (m', Nil)
      /\ vms m' = l /\ loading m' = false
      /\ cursor m' = cursor m /\ err m' = err m /\ projectID m' = projectID m
      /\ client m' = client m /\ spinner m' = spinner m)
  /\ (forall m, reachable m -> phase m = Loading -> cursor m = 0)
  /\ (forall m l, cursor m <> 0 -> exists m',
        Update m (vmsMsg l) = Returns (m', Nil) /\ cursor m' = cursor m /\ cursor m' <> 0).
Proof.
  split; [|split].
  - intros m l. eexists. repeat split.
  - intros m Hr Hp. apply (reachable_fresh m Hr).
    unfold phase in Hp. destruct (err m); [discriminate|].
    destruct (loading m); [reflexivity | discriminate].
  - intros m l Hc. eexists. split; [reflexivity|]. split; [reflexivity | exact Hc].
Qed.

End Selection.

(** ** The scenarios, evaluated *)

Section Scenarios.

Import tui Samples.
Existing Instance stillSpinner.
Local Open Scope list_scope.

(** Scenario B. *)
Example fetch_failure_then_keys :
  run (NewModel testClient "test-project")
      [errMsg serverError; KeyMsg "down"; KeyMsg "q"]
  = Returns (failed serverError, [Nil; Nil; Quit])
  /\ phase (failed serverError) = Failed
  /\ option_map Error (err (failed serverError)) = Some "internal server error".
Proof. repeat split. Qed.

(** Scenario C. *)
Example empty_fetch_then_enter :
  run (NewModel testClient "test-project") [vmsMsg []; KeyMsg "enter"]
  = Returns (listing [] 0, [Nil; Nil])
  /\ phase (listing [] 0) = Ready.
Proof. repeat split. Qed.

(** The test TestUpdate_CursorMovement. *)
Example cursor_movement :
  run (listing [vm1; vm2; vm3] 0) [KeyMsg "down"; KeyMsg "up"; KeyMsg "up"]
  = Returns (listing [vm1; vm2; vm3] 0, [Nil; Nil; Nil])
  /\ Update (listing [vm1; vm2; vm3] 0) (KeyMsg "down")
     = Returns (listing [vm1; vm2; vm3] 1, Nil).
Proof. repeat split. Qed.

(** The fetch command of a model hands the client's result on as a message. *)
Example fetchVmsCmd_of_results :
  fetchVmsCmd (NewModel (mockClient [vm1] None) "test-project") = Returns (vmsMsg [vm1])
  /\ fetchVmsCmd (NewModel (mockClient [] (Some apiError)) "test-project")
     = Returns (errMsg apiError).
Proof. repeat split. Qed.

(** The cursor invariant does not survive a second fetch result: [Update]
    does not touch the cursor on [vmsMsg].  After three records, two down
    keys and an empty second result the inventory is empty with the cursor
    at 2; after a shorter second result, enter indexes out of range. *)
Lemma second_fetch_breaks_cursor :
  forallb (fun msg => fetch_result msg || key_event msg) secondFetchEmpty = true
  /\ run (NewModel testClient "test-project") secondFetchEmpty
     = Returns (listing [] 2, [Nil; Nil; Nil; Nil])
  /\ forallb (fun msg => fetch_result msg || key_event msg) secondFetchShorter = true
  /\ run (NewModel testClient "test-project") secondFetchShorter = Panics
  /\ ~ (forall m, reachable m -> cursor_ok m).
Proof.
  repeat split. intros H.
  assert (Hr : reachable (listing [] 2)).
  { exists testClient, "test-project", secondFetchEmpty, [Nil; Nil; Nil; Nil].
    reflexivity. }
  specialize (H _ Hr). discriminate H.
Qed.

(** After a second, shorter fetch result the model is Ready with one
    record and the cursor at 2: enter indexes out of range, so no session is
    launched and the call does not return. *)
Lemma enter_panics_after_second_fetch :
  run (NewModel testClient "test-project")
      [vmsMsg [vm1; vm2; vm3]; KeyMsg "down"; KeyMsg "down"; vmsMsg [vm1]]
  = Returns (listing [vm1] 2, [Nil; Nil; Nil; Nil])
  /\ phase (listing [vm1] 2) = Ready
  /\ vms (listing [vm1] 2) <> []
  /\ Update (listing [vm1] 2) (KeyMsg "enter") = Panics
  /\ ~ (forall m, reachable m -> phase m = Ready -> vms m <> [] ->
          exists c, Update m (KeyMsg "enter") = Returns (m, c)).
Proof.
  split; [reflexivity|]. split; [reflexivity|]. split; [discriminate|].
  split; [reflexivity|]. intros H.
  assert (Hr : reachable (listing [vm1] 2)).
  { exists testClient, "test-project",
      [vmsMsg [vm1; vm2; vm3]; KeyMsg "down"; KeyMsg "down"; vmsMsg [vm1]],
      [Nil; Nil; Nil; Nil].
    reflexivity. }
  destruct (H _ Hr eq_refl) as [c Hc]; [discriminate|]. discriminate Hc.
Qed.

(** After a second, empty fetch result the model is Ready with an empty
    inventory and the cursor at 2: the up key moves the cursor to 1. *)
Lemma up_moves_on_empty_after_second_fetch :
  run (NewModel testClient "test-project") secondFetchEmpty
  = Returns (listing [] 2, [Nil; Nil; Nil; Nil])
  /\ phase (listing [] 2) = Ready
  /\ vms (listing [] 2) = []
  /\ Update (listing [] 2) (KeyMsg "up") = Returns (listing [] 1, Nil)
  /\ ~ (forall m, reachable m -> phase m = Ready -> vms m = [] ->
          Update m (KeyMsg "up") = Returns (m, Nil)).
Proof.
  split; [reflexivity|]. split; [reflexivity|]. split; [reflexivity|].
  split; [reflexivity|]. intros H.
  assert (Hr : reachable (listing [] 2)).
  { exists testClient, "test-project", secondFetchEmpty, [Nil; Nil; Nil; Nil].
    reflexivity. }
  specialize (H _ Hr eq_refl eq_refl). discriminate H.
Qed.

(** *** The theorems at the scenarios *)

Lemma listing_run_reachable inventory :
  run_reachable (listing inventory 0).
Proof.
  exists testClient, "test-project", [vmsMsg inventory], [Nil].
  split; [apply le_n | reflexivity].
Defined.

Lemma second_of_two_run_reachable : run_reachable (listing [vm1; vm2] 1).
Proof.
  exists testClient, "test-project", [vmsMsg [vm1; vm2]; KeyMsg "down"], [Nil; Nil].
  split; [apply le_n | reflexivity].
Defined.

Lemma NewModel_reachable : reachable (NewModel testClient "test-project").
Proof. exists testClient, "test-project", [], []. reflexivity. Defined.

Lemma KeyConfirm_launches_selected_witness :
  exists vm c,
    index [vm1; vm2] 1 = Returns vm
    /\ Update (listing [vm1; vm2] 1) (KeyMsg "enter")
       = Returns (listing [vm1; vm2] 1, ExecProcess c)
    /\ exec.Args c
       = ["gcloud"; "compute"; "ssh"; gcp.Name vm;
          "--zone"; gcp.Zone vm; "--project"; "test-project"].
Proof.
  apply (proj1 (KeyConfirm_launches_selected (sp := stillSpinner))
           (listing [vm1; vm2] 1)).
  - exact second_of_two_run_reachable.
  - reflexivity.
  - discriminate.
Defined.

Lemma cursor_in_bounds_with_one_fetch_witness :
  exists m cmds,
    run (NewModel testClient "test-project")
        [KeyMsg "down"; vmsMsg [vm1; vm2]; KeyMsg "down"; KeyMsg "down"; KeyMsg "enter"]
    = Returns (m, cmds)
    /\ cursor_ok m
    /\ (vms m <> [] -> exists vm, index (vms m) (cursor m) = Returns vm).
Proof.
  apply (cursor_in_bounds_with_one_fetch (sp := stillSpinner)). apply le_n.
Defined.

Lemma FetchSucceeded_in_Loading_witness :
  exists m',
    Update (NewModel testClient "test-project") (vmsMsg [vm1; vm2]) = Returns (m', Nil)
    /\ phase m' = Ready /\ vms m' = [vm1; vm2] /\ cursor m' = 0.
Proof.
  apply (FetchSucceeded_in_Loading (sp := stillSpinner)).
  - exact NewModel_reachable.
  - reflexivity.
Defined.

Lemma cursor_saturates_witness :
  (forall n, run (listing [vm1; vm2; vm3] 0) (repeat (KeyMsg "up") n)
             = Returns (listing [vm1; vm2; vm3] 0, repeat Nil n))
  /\ (forall n, run (listing [vm1; vm2; vm3] 2) (repeat (KeyMsg "j") n)
                = Returns (listing [vm1; vm2; vm3] 2, repeat Nil n))
  /\ Update (listing [vm1; vm2; vm3] 1) (KeyMsg "k")
     = Returns (listing [vm1; vm2; vm3] 0, Nil)
  /\ Update (listing [vm1; vm2; vm3] 1) (KeyMsg "down")
     = Returns (listing [vm1; vm2; vm3] 2, Nil).
Proof.
  split; [|split; [|split]].
  - exact (proj1 (cursor_saturates (sp := stillSpinner)
                    (listing [vm1; vm2; vm3] 0) "up" "down"
                    (or_introl eq_refl) (or_introl eq_refl)) eq_refl).
  - exact (proj1 (proj2 (cursor_saturates (sp := stillSpinner)
                           (listing [vm1; vm2; vm3] 2) "up" "j"
                           (or_introl eq_refl) (or_intror (or_introl eq_refl))))
             eq_refl).
  - exact (proj1 (proj2 (proj2 (cursor_saturates (sp := stillSpinner)
                                  (listing [vm1; vm2; vm3] 1) "k" "down"
                                  (or_intror (or_introl eq_refl)) (or_introl eq_refl))))
             eq_refl).
  - exact (proj2 (proj2 (proj2 (cursor_saturates (sp := stillSpinner)
                                  (listing [vm1; vm2; vm3] 1) "k" "down"
                                  (or_intror (or_introl eq_refl)) (or_introl eq_refl))))
             eq_refl).
Defined.

Lemma empty_inventory_is_inert_witness :
  Update (listing [] 0) (KeyMsg "enter") = Returns (listing [] 0, Nil)
  /\ Update (listing [] 0) (KeyMsg "up") = Returns (listing [] 0, Nil)
  /\ Update (listing [] 2) (KeyMsg "down") = Returns (listing [] 2, Nil)
  /\ Update (listing [vm1] 0) (KeyMsg "down") = Returns (listing [vm1] 0, Nil)
  /\ exists c,
       Update (listing [vm1] 0) (KeyMsg "enter")
       = Returns (listing [vm1] 0, ExecProcess c)
       /\ ExecProcess c <> Nil
       /\ exec.Args c
          = ["gcloud"; "compute"; "ssh"; "vm-1";
             "--zone"; "us-central1-a"; "--project"; "test-project"].
Proof.
  pose proof (empty_inventory_is_inert (sp := stillSpinner)) as (_ & Hdown & Hrun).
  destruct (Hrun (listing [] 0) (listing_run_reachable []) eq_refl) as [Hempty _].
  destruct (Hrun (listing [vm1] 0) (listing_run_reachable [vm1]) eq_refl) as [_ Hone].
  destruct (Hone vm1 eq_refl) as (_ & Hkeys & Henter).
  split; [|split; [|split; [|split]]].
  - apply (Hempty eq_refl). simpl. tauto.
  - apply (Hempty eq_refl). simpl. tauto.
  - apply (Hdown (listing [] 2)); [|reflexivity | simpl; tauto].
    exists testClient, "test-project", secondFetchEmpty, [Nil; Nil; Nil; Nil].
    reflexivity.
  - apply Hkeys. simpl. tauto.
  - exact Henter.
Defined.


Lemma vmsMsg_leaves_cursor_witness :
  cursor (NewModel testClient "test-project") = 0
  /\ exists m',
       Update (listing [vm1; vm2; vm3] 2) (vmsMsg [vm1]) = Returns (m', Nil)
       /\ cursor m' = 2 /\ cursor m' <> 0.
Proof.
  split.
  - exact (proj1 (proj2 (vmsMsg_leaves_cursor (sp := stillSpinner)))
             (NewModel testClient "test-project") NewModel_reachable eq_refl).
  - apply (proj2 (proj2 (vmsMsg_leaves_cursor (sp := stillSpinner)))
             (listing [vm1; vm2; vm3] 2) [vm1]).
    discriminate.
Defined.

End Scenarios.


(** ** More on the fetcher *)

Section FetcherEdges.

Import fetcher client.
Local Open Scope list_scope.

Lemma fetchLoop_after_error pre e rest :
  forall vms,
    gcp.fetchLoop (pre ++ compute.Failure e :: rest) vms
    = gcp.fetchLoop (pre ++ [compute.Failure e]) vms.
Proof.
  induction pre as [|r pre IH]; intros vms; [reflexivity|].
  destruct r as [p|e']; [|reflexivity]. simpl.
  destruct (compute.Value p) as [value|]; [|apply IH].
  destruct (0 <? len (computepb.Instances value)); [|apply IH].
  destruct (gcp.appendInstances (computepb.Instances value) vms); simpl;
    [apply IH | reflexivity].
Qed.

Lemma fetchLoop_Done pre rest :
  forall vms,
    gcp.fetchLoop (pre ++ compute.Failure Done :: rest) vms = gcp.fetchLoop pre vms.
Proof.
  induction pre as [|r pre IH]; intros vms; [reflexivity|].
  destruct r as [p|e']; [|reflexivity]. simpl.
  destruct (compute.Value p) as [value|]; [|apply IH].
  destruct (0 <? len (computepb.Instances value)); [|apply IH].
  destruct (gcp.appendInstances (computepb.Instances value) vms); simpl;
    [apply IH | reflexivity].
Qed.

(** X1.  The loop ends at the first error of [Next]: what the iterator
    would answer after it has no influence on the result, and an
    [iterator.Done] in the middle ends the fetch with what the responses
    before it give. *)
Theorem FetchInstances_stops_at_first_error :
  forall pre e rest,
    gcp.FetchInstances (pre ++ compute.Failure e :: rest)
    = gcp.FetchInstances (pre ++ [compute.Failure e])
    /\ gcp.FetchInstances (pre ++ compute.Failure Done :: rest)
       = gcp.FetchInstances pre.
Proof.
  intros pre e rest. unfold gcp.FetchInstances. split.
  - apply fetchLoop_after_error.
  - apply fetchLoop_Done.
Qed.

Lemma appendInstances_unpopulated l :
  forallb populated l = false -> forall vms, gcp.appendInstances l vms = Panics.
Proof.
  induction l as [|i l IH]; intros Hl vms; [discriminate Hl|].
  simpl in Hl. destruct i as [[[n|] [z|]]|]; try reflexivity.
  simpl in Hl. simpl. now apply IH.
Qed.

Lemma fetchLoop_unpopulated p it vms :
  forallb populated (instances_of p) = false ->
  gcp.fetchLoop (compute.Item p :: it) vms = Panics.
Proof.
  unfold instances_of. intros Hp. simpl.
  destruct (compute.Value p) as [value|]; [|discriminate Hp].
  destruct (computepb.Instances value) as [|i l] eqn:E; [discriminate Hp|].
  replace (0 <? len (i :: l)) with true
    by (symmetry; apply Z.ltb_lt; unfold len; simpl; lia).
  now rewrite (appendInstances_unpopulated _ Hp).
Qed.

Lemma fetchLoop_panics_iff it :
  forall vms,
    gcp.fetchLoop it vms = Panics
    <-> forallb populated (flat_map instances_of (drained it)) = false.
Proof.
  induction it as [|r it IH]; intros vms.
  - simpl. split; discriminate.
  - destruct r as [p|e].
    + cbn [drained flat_map]. rewrite forallb_app.
      destruct (forallb populated (instances_of p)) eqn:Hp.
      * rewrite (fetchLoop_Item _ _ _ Hp). apply IH.
      * rewrite (fetchLoop_unpopulated _ _ _ Hp). simpl. tauto.
    + simpl. destruct (is_Done e); split; discriminate.
Qed.

(** X2.  FetchInstances panics exactly when one of the scoped lists it
    reads before the first error of [Next] holds an instance entry that is
    nil or lacks its name or zone; entries behind the first error do no
    harm. *)
Theorem FetchInstances_panics_iff :
  forall it,
    gcp.FetchInstances it = Panics
    <-> forallb populated (flat_map instances_of (drained it)) = false.
Proof. intros it. apply fetchLoop_panics_iff. Qed.

(** *** The zone of a record is one path element *)

Lemma LastIndexByte_last s :
  (LastIndexByte s "/" = -1 /\ ~ In "/"%char (list_ascii_of_string s))
  \/ (0 <= LastIndexByte s "/"
      /\ ~ In "/"%char
           (list_ascii_of_string
              (slice_from (Z.to_nat (LastIndexByte s "/" + 1)) s))).
Proof.
  induction s as [|a s IH]; [left; split; [reflexivity | intros []]|].
  cbn [LastIndexByte]. destruct IH as [[Hi Hs]|[Hi Hs]].
  - rewrite Hi. change (0 <=? -1) with false. cbv iota.
    destruct (Ascii.eqb a "/") eqn:Ha.
    + right. split; [lia|]. exact Hs.
    + left. split; [reflexivity|]. simpl. intros [H|H]; [|now apply Hs].
      apply Ascii.eqb_neq in Ha. congruence.
  - replace (0 <=? LastIndexByte s "/") with true by (symmetry; apply Z.leb_le; lia).
    right. split; [lia|].
    replace (Z.to_nat (LastIndexByte s "/" + 1 + 1))
      with (S (Z.to_nat (LastIndexByte s "/" + 1))) by lia.
    exact Hs.
Qed.

Lemma path_Base_single_element p : single_element (path_Base p).
Proof.
  unfold single_element, path_Base.
  destruct (p =? "")%string.
  { split; [discriminate|]. right. simpl. intros [H|[]]. discriminate H. }
  set (s := stripTrailingSlashes p).
  destruct (LastIndexByte_last s) as [[Hi Hs]|[Hi Hs]].
  - rewrite Hi. change (0 <=? -1) with false. cbv iota.
    destruct (s =? "")%string eqn:E; [split; [discriminate | now left]|].
    apply String.eqb_neq in E. split; [exact E | now right].
  - replace (0 <=? LastIndexByte s "/") with true by (symmetry; apply Z.leb_le; lia).
    destruct (slice_from (Z.to_nat (LastIndexByte s "/" + 1)) s =? "")%string eqn:E;
      [split; [discriminate | now left]|].
    apply String.eqb_neq in E. split; [exact E | now right].
Qed.

Lemma appendInstances_zones l :
  forall vms vms',
    Forall (fun r => single_element (gcp.Zone r)) vms ->
    gcp.appendInstances l vms = Returns vms' ->
    Forall (fun r => single_element (gcp.Zone r)) vms'.
Proof.
  induction l as [|i l IH]; intros vms vms' Hv Hr; simpl in Hr.
  - now returned_one.
  - destruct i as [[[n|] [z|]]|]; try discriminate Hr. simpl in Hr.
    eapply IH; [|exact Hr]. apply Forall_app. split; [exact Hv|].
    constructor; [apply path_Base_single_element | constructor].
Qed.

Lemma fetchLoop_zones it :
  forall vms vms' err,
    Forall (fun r => single_element (gcp.Zone r)) vms ->
    gcp.fetchLoop it vms = Returns (vms', err) ->
    Forall (fun r => single_element (gcp.Zone r)) vms'.
Proof.
  induction it as [|r it IH]; intros vms vms' err Hv Hr; simpl in Hr.
  - now returned.
  - destruct r as [p|e].
    + destruct (compute.Value p) as [value|]; [|eapply IH; eassumption].
      destruct (0 <? len (computepb.Instances value)); [|eapply IH; eassumption].
      destruct (gcp.appendInstances (computepb.Instances value) vms) as [vms1|] eqn:Ha;
        [|discriminate Hr].
      simpl in Hr. eapply IH; [|exact Hr].
      eapply appendInstances_zones; eassumption.
    + destruct (is_Done e); returned; [exact Hv | constructor].
Qed.

(** X3.  Whatever zone strings the source sends (empty, with trailing
    slashes, a full URL), every record FetchInstances returns has a zone that
    is one path element: it is not empty, and it holds no slash unless it is
    the root ["/"]. *)
Theorem FetchInstances_zone_single_element :
  forall it vms err,
    gcp.FetchInstances it = Returns (vms, err) ->
    Forall (fun r => single_element (gcp.Zone r)) vms.
Proof.
  intros it vms err Hr. eapply fetchLoop_zones; [constructor | exact Hr].
Qed.

Lemma FetchInstances_zone_single_element_witness :
  Forall (fun r => single_element (gcp.Zone r))
    [ {| gcp.Name := "instance-1"; gcp.Zone := "us-central1-a" |};
      {| gcp.Name := "instance-2"; gcp.Zone := "europe-west1-b" |} ].
Proof.
  exact (FetchInstances_zone_single_element
           [compute.Item Samples.page1; compute.Item Samples.page2] _ None eq_refl).
Defined.

(** How [path.Base] treats the zones that are not of the usual form. *)
Example path_Base_edges :
  path_Base "" = "." /\ path_Base "///" = "/"
  /\ path_Base "zones/us-central1-a/" = "us-central1-a"
  /\ path_Base "us-central1-a" = "us-central1-a".
Proof. repeat split. Qed.

End FetcherEdges.

(** ** More on the state machine *)

Section SelectionEdges.

Context {sp : spinner.Lib}.
Import tui.
Local Open Scope list_scope.

Lemma run_cons_inv m msg rest m' cmds :
  run m (msg :: rest) = Returns (m', cmds) ->
  exists m1 c,
    Update m msg = Returns (m1, c)
    /\ ((c = Quit /\ m' = m1 /\ cmds = [Quit])
        \/ (c <> Quit /\ exists cmds2,
              run m1 rest = Returns (m', cmds2) /\ cmds = c :: cmds2)).
Proof.
  intros Hr. simpl in Hr.
  destruct (Update m msg) as [[m1 c]|] eqn:Hu; [|discriminate Hr].
  exists m1, c. split; [reflexivity|]. simpl in Hr.
  destruct c;
    try (destruct (run m1 rest) as [[m2 cmds2]|] eqn:Hr2; [|discriminate Hr];
         simpl in Hr; injection Hr as <- <-;
         right; split; [discriminate | exists cmds2; split; reflexivity]).
  injection Hr as <- <-. left. repeat split.
Qed.

(** A relation every admitted step of [Update] stays within relates the
    two ends of every run over admitted messages. *)
Lemma run_relates (R : Model -> Model -> Prop) (ok : Msg -> Prop) :
  (forall m, R m m) ->
  (forall a b c, R a b -> R b c -> R a c) ->
  (forall m msg m' c, ok msg -> Update m msg = Returns (m', c) -> R m m') ->
  forall msgs m m' cmds,
    Forall ok msgs -> run m msgs = Returns (m', cmds) -> R m m'.
Proof.
  intros Hrefl Htrans Hstep.
  induction msgs as [|msg rest IH]; intros m m' cmds Hok Hr.
  - simpl in Hr. returned. apply Hrefl.
  - inversion Hok as [|? ? Hmsg Hrest]; subst.
    destruct (run_cons_inv _ _ _ _ _ Hr)
      as (m1 & c & Hu & [(_ & -> & _)|(_ & cmds2 & Hr2 & _)]).
    + eapply Hstep; eassumption.
    + eapply Htrans; [eapply Hstep; eassumption | eapply IH; eassumption].
Qed.

(** *** Which messages quit, launch, or panic *)

(** X4.  [Update] returns [tea.Quit] for the keys ctrl+c and q, in every
    state and with the model unchanged, and for no other message. *)
Theorem Update_quits_iff :
  forall m msg m',
    Update m msg = Returns (m', Quit)
    <-> (msg = KeyMsg "ctrl+c" \/ msg = KeyMsg "q") /\ m' = m.
Proof.
  intros m msg m'. split.
  - destruct msg as [s|l|e|t|]; unfold Update; try congruence.
    + destruct (s =? "ctrl+c")%string eqn:Hc.
      { apply String.eqb_eq in Hc. simpl. intros H. injection H as <-. subst. auto. }
      destruct (s =? "q")%string eqn:Hq.
      { apply String.eqb_eq in Hq. simpl. intros H. injection H as <-. subst. auto. }
      simpl.
      destruct ((s =? "up")%string || (s =? "k")%string); [congruence|].
      destruct ((s =? "down")%string || (s =? "j")%string); [congruence|].
      destruct (s =? "enter")%string; [|congruence].
      destruct (len (vms m) =? 0); [congruence|].
      destruct (index (vms m) (cursor m)); simpl; [|congruence].
      unfold LaunchSession. congruence.
    + destruct (spinner.Update (spinner m) t). congruence.
  - intros [[-> | ->] ->]; reflexivity.
Qed.

Lemma index_In {A : Type} (l : list A) i a : index l i = Returns a -> In a l.
Proof.
  unfold index. destruct (i <? 0); [discriminate|].
  destruct (nth_error l (Z.to_nat i)) eqn:E; [|discriminate].
  intros H. injection H as <-. eapply nth_error_In; eassumption.
Qed.

Lemma Update_launch_only_on_enter_step m msg m' c :
  Update m msg = Returns (m', c) -> is_launch c = true ->
  exists vm, In vm (vms m) /\ c = LaunchSession vm (projectID m).
Proof.
  intros Hu Hl.
  destruct msg as [s|l|e|t|]; unfold Update in Hu;
    try (returned; discriminate Hl).
  - destruct ((s =? "ctrl+c")%string || (s =? "q")%string);
      [returned; discriminate Hl|].
    destruct ((s =? "up")%string || (s =? "k")%string); [returned; discriminate Hl|].
    destruct ((s =? "down")%string || (s =? "j")%string);
      [returned; discriminate Hl|].
    destruct (s =? "enter")%string; [|returned; discriminate Hl].
    destruct (len (vms m) =? 0); [returned; discriminate Hl|].
    destruct (index (vms m) (cursor m)) as [vm|] eqn:Hi; simpl in Hu; [|discriminate Hu].
    returned. exists vm. split; [eapply index_In; eassumption | reflexivity].
  - destruct (spinner.Update (spinner m) t). returned. discriminate Hl.
Qed.

(** X5.  A session is launched only by enter: when the command that
    [Update] returns is an ExecProcess, the message was the enter key, the
    model is unchanged, and the command is the gcloud call for the record
    under the cursor, a record of the inventory, with the project of the
    model. *)
Theorem Update_launch_only_on_enter :
  forall m msg m' c,
    Update m msg = Returns (m', c) -> is_launch c = true ->
    msg = KeyMsg "enter" /\ m' = m
    /\ exists vm, index (vms m) (cursor m) = Returns vm
         /\ In vm (vms m) /\ c = LaunchSession vm (projectID m).
Proof.
  intros m msg m' c Hu Hl.
  destruct msg as [s|l|e|t|]; unfold Update in Hu;
    try (returned; discriminate Hl).
  - destruct ((s =? "ctrl+c")%string || (s =? "q")%string);
      [returned; discriminate Hl|].
    destruct ((s =? "up")%string || (s =? "k")%string); [returned; discriminate Hl|].
    destruct ((s =? "down")%string || (s =? "j")%string);
      [returned; discriminate Hl|].
    destruct (s =? "enter")%string eqn:He; [|returned; discriminate Hl].
    apply String.eqb_eq in He. subst s.
    destruct (len (vms m) =? 0); [returned; discriminate Hl|].
    destruct (index (vms m) (cursor m)) as [vm|] eqn:Hi; simpl in Hu; [|discriminate Hu].
    returned. split; [reflexivity|]. split; [reflexivity|].
    exists vm. split; [reflexivity|]. split; [|reflexivity].
    eapply index_In; eassumption.
  - destruct (spinner.Update (spinner m) t). returned. discriminate Hl.
Qed.

Lemma index_Panics_iff {A : Type} (l : list A) i :
  index l i = Panics <-> ~ (0 <= i < len l).
Proof.
  split.
  - intros Hp Hi. destruct (index_in_bounds l i Hi) as [a Ha]. congruence.
  - intros Hi. unfold index, len in *.
    destruct (i <? 0) eqn:E; [reflexivity|]. apply Z.ltb_ge in E.
    destruct (nth_error l (Z.to_nat i)) eqn:En; [|reflexivity].
    exfalso. apply Hi. split; [exact E|].
    assert (Z.to_nat i < List.length l)%nat
      by (apply nth_error_Some; congruence).
    lia.
Qed.

(** X6.  [Update] panics in one situation only: enter on a non-empty
    inventory with the cursor outside of it.  Every other message, and
    enter in every other state, returns. *)
Theorem Update_panics_iff :
  forall m msg,
    Update m msg = Panics
    <-> msg = KeyMsg "enter" /\ vms m <> [] /\ ~ (0 <= cursor m < len (vms m)).
Proof.
  intros m msg. split.
  - destruct msg as [s|l|e|t|]; unfold Update; try discriminate.
    + destruct ((s =? "ctrl+c")%string || (s =? "q")%string); [discriminate|].
      destruct ((s =? "up")%string || (s =? "k")%string); [discriminate|].
      destruct ((s =? "down")%string || (s =? "j")%string); [discriminate|].
      destruct (s =? "enter")%string eqn:He; [|discriminate].
      apply String.eqb_eq in He. subst s.
      destruct (len (vms m) =? 0) eqn:El; [discriminate|].
      destruct (index (vms m) (cursor m)) eqn:Hi; [discriminate|].
      intros _. split; [reflexivity|]. split.
      * intros Hv. rewrite Hv in El. discriminate El.
      * now apply index_Panics_iff.
    + destruct (spinner.Update (spinner m) t). discriminate.
  - intros (-> & Hv & Hi). unfold Update. simpl.
    destruct (vms m) as [|a l] eqn:E; [congruence|].
    replace (len (a :: l) =? 0) with false
      by (symmetry; apply Z.eqb_neq; unfold len; cbn [List.length]; lia).
    apply index_Panics_iff in Hi. now rewrite Hi.
Qed.

(** *** What a step and a run leave alone *)

Lemma Update_step m msg m' c :
  Update m msg = Returns (m', c) ->
  projectID m' = projectID m /\ client m' = client m
  /\ (vms m' = vms m \/ exists l, msg = vmsMsg l /\ vms m' = l)
  /\ (err m' = err m \/ exists e, msg = errMsg e /\ err m' = Some (errMsg_error e))
  /\ (loading m' = loading m \/ loading m' = false).
Proof.
  intros Hu. destruct (fetch_result msg) eqn:Hr.
  - destruct msg as [s|l|e|t|]; try discriminate; simpl in Hu; returned; simpl.
    + repeat split; auto. right. now exists l.
    + repeat split; auto. right. now exists e.
  - destruct (Update_not_fetch_result _ _ _ _ Hr Hu); simpl; repeat split; auto.
Qed.

(** X7.  No run goes back a phase: whatever messages follow, a model that
    holds an error keeps holding one (Failed stays Failed, also through
    late fetch results), and a model that has left Loading never shows the
    loading screen again. *)
Theorem phase_never_goes_back :
  forall msgs m m' cmds,
    run m msgs = Returns (m', cmds) ->
    (phase m = Failed -> phase m' = Failed)
    /\ (phase m <> Loading -> phase m' <> Loading).
Proof.
  intros msgs m m' cmds Hr.
  assert (H : (err m <> None -> err m' <> None)
              /\ (loading m = false -> loading m' = false)).
  { apply (run_relates
             (fun a b => (err a <> None -> err b <> None)
                         /\ (loading a = false -> loading b = false))
             (fun _ => True)) with (msgs := msgs) (cmds := cmds); auto.
    - intros a b c [H1 H2] [H3 H4]. auto.
    - intros a msg b c _ Hu.
      destruct (Update_step _ _ _ _ Hu) as (_ & _ & _ & He & Hl). split.
      + destruct He as [-> | (e & _ & ->)]; [auto | discriminate].
      + destruct Hl as [-> | ->]; auto.
    - apply Forall_forall. auto. }
  destruct H as [He Hl]. unfold phase. split.
  - destruct (err m) eqn:E; [|destruct (loading m); discriminate].
    intros _. destruct (err m'); [reflexivity | exfalso; now apply He].
  - intros Hp. destruct (err m') eqn:E'; [discriminate|].
    destruct (err m) eqn:E; [exfalso; now apply He|].
    destruct (loading m) eqn:L; [congruence|]. now rewrite Hl.
Qed.

(** X8.  While the fetch is outstanding only the quit keys do anything:
    in a reachable model that is still loading every other key returns the
    model unchanged and no command. *)
Theorem keys_while_loading :
  forall m k,
    reachable m -> phase m = Loading -> k <> "ctrl+c" -> k <> "q" ->
    Update m (KeyMsg k) = Returns (m, Nil).
Proof.
  intros m k Hr Hp Hc Hq.
  assert (Hl : loading m = true).
  { unfold phase in Hp. destruct (err m); [discriminate|].
    destruct (loading m); [reflexivity | discriminate]. }
  destruct (reachable_fresh m Hr Hl) as [Hv Hz]. now apply Key_idle.
Qed.

(** *** Where the cursor lands *)

Lemma set_cursor_same m : set_cursor m (cursor m) = m.
Proof. now destruct m. Qed.

Lemma run_down m n :
  cursor m <= len (vms m) - 1 ->
  run m (repeat (KeyMsg "down") n)
  = Returns (set_cursor m (Z.min (cursor m + Z.of_nat n) (len (vms m) - 1)),
             repeat Nil n).
Proof.
  revert m. induction n as [|n IH]; intros m Hc.
  - simpl. rewrite Z.add_0_r, Z.min_l by lia. now rewrite set_cursor_same.
  - cbn [repeat]. destruct (Z.eq_dec (cursor m) (len (vms m) - 1)) as [He|Hne].
    + rewrite (run_cons _ _ _ _ _
                 (KeyDown_at_bottom m "down" (or_introl eq_refl) (Z.eq_le_incl _ _ (eq_sym He)))).
      rewrite (IH m Hc).
      replace (Z.min (cursor m + Z.of_nat (S n)) (len (vms m) - 1))
        with (Z.min (cursor m + Z.of_nat n) (len (vms m) - 1)) by lia.
      reflexivity.
    + assert (Hlt : cursor m < len (vms m) - 1) by lia.
      rewrite (run_cons _ _ _ _ _ (KeyDown_moves m "down" (or_introl eq_refl) Hlt)).
      rewrite IH by (simpl; lia).
      replace (cursor m + Z.of_nat (S n)) with (cursor m + 1 + Z.of_nat n) by lia.
      reflexivity.
Qed.

Lemma run_up m n :
  0 <= cursor m ->
  run m (repeat (KeyMsg "up") n)
  = Returns (set_cursor m (Z.max (cursor m - Z.of_nat n) 0), repeat Nil n).
Proof.
  revert m. induction n as [|n IH]; intros m Hc.
  - simpl. rewrite Z.sub_0_r, Z.max_l by lia. now rewrite set_cursor_same.
  - cbn [repeat]. destruct (Z.eq_dec (cursor m) 0) as [He|Hne].
    + rewrite (run_cons _ _ _ _ _
                 (KeyUp_at_top m "up" (or_introl eq_refl) (Z.eq_le_incl _ _ He))).
      rewrite (IH m Hc).
      replace (Z.max (cursor m - Z.of_nat (S n)) 0)
        with (Z.max (cursor m - Z.of_nat n) 0) by lia.
      reflexivity.
    + assert (Hlt : 0 < cursor m) by lia.
      rewrite (run_cons _ _ _ _ _ (KeyUp_moves m "up" (or_introl eq_refl) Hlt)).
      rewrite IH by (simpl; lia).
      replace (cursor m - Z.of_nat (S n)) with (cursor m - 1 - Z.of_nat n) by lia.
      reflexivity.
Qed.

(** X9.  With the cursor on a row of the list, n down keys put it on row
    min(cursor + n, len - 1) and n up keys on row max(cursor - n, 0); nothing
    else in the model changes and no command is returned.  So a down key
    followed by an up key is a round trip wherever the cursor is not on the
    last row. *)
Theorem cursor_after_n_keys :
  forall m n,
    0 <= cursor m <= len (vms m) - 1 ->
    run m (repeat (KeyMsg "down") n)
    = Returns (set_cursor m (Z.min (cursor m + Z.of_nat n) (len (vms m) - 1)),
               repeat Nil n)
    /\ run m (repeat (KeyMsg "up") n)
       = Returns (set_cursor m (Z.max (cursor m - Z.of_nat n) 0), repeat Nil n)
    /\ (cursor m < len (vms m) - 1 ->
          run m [KeyMsg "down"; KeyMsg "up"] = Returns (m, [Nil; Nil])).
Proof.
  intros m n Hc. split; [apply run_down; lia|]. split; [apply run_up; lia|].
  intros Hlt.
  rewrite (run_cons _ _ _ _ _ (KeyDown_moves m "down" (or_introl eq_refl) Hlt)).
  assert (Hup : 0 < cursor (set_cursor m (cursor m + 1))) by (simpl; lia).
  rewrite (run_cons _ _ _ _ _
             (KeyUp_moves (set_cursor m (cursor m + 1)) "up" (or_introl eq_refl) Hup)).
  assert (Hback : set_cursor (set_cursor m (cursor m + 1))
                    (cursor (set_cursor m (cursor m + 1)) - 1) = m).
  { destruct m as [cl p v cu lo spn er]. unfold set_cursor. simpl. f_equal. lia. }
  rewrite Hback. reflexivity.
Qed.

(** X10.  A run never changes the project or the client of the model; it
    changes the inventory only when a fetch success is among the messages
    and the stored error only when a fetch failure is. *)
Theorem run_frame :
  forall msgs m m' cmds,
    run m msgs = Returns (m', cmds) ->
    projectID m' = projectID m /\ client m' = client m
    /\ ((forall l, ~ In (vmsMsg l) msgs) -> vms m' = vms m)
    /\ ((forall e, ~ In (errMsg e) msgs) -> err m' = err m).
Proof.
  intros msgs m m' cmds Hr. split; [|split; [|split]].
  - apply (run_relates (fun a b => projectID b = projectID a) (fun _ => True))
      with (msgs := msgs) (cmds := cmds); auto.
    + intros a b c H1 H2. congruence.
    + intros a msg b c _ Hu. apply (Update_step _ _ _ _ Hu).
    + apply Forall_forall. auto.
  - apply (run_relates (fun a b => client b = client a) (fun _ => True))
      with (msgs := msgs) (cmds := cmds); auto.
    + intros a b c H1 H2. congruence.
    + intros a msg b c _ Hu. apply (Update_step _ _ _ _ Hu).
    + apply Forall_forall. auto.
  - intros Hno.
    apply (run_relates (fun a b => vms b = vms a) (fun msg => forall l, msg <> vmsMsg l))
      with (msgs := msgs) (cmds := cmds); auto.
    + intros a b c H1 H2. congruence.
    + intros a msg b c Hok Hu.
      destruct (Update_step _ _ _ _ Hu) as (_ & _ & [Hv | (l & Hl & _)] & _);
        [exact Hv | now destruct (Hok l)].
    + apply Forall_forall. intros msg Hin l ->. exact (Hno l Hin).
  - intros Hno.
    apply (run_relates (fun a b => err b = err a) (fun msg => forall e, msg <> errMsg e))
      with (msgs := msgs) (cmds := cmds); auto.
    + intros a b c H1 H2. congruence.
    + intros a msg b c Hok Hu.
      destruct (Update_step _ _ _ _ Hu) as (_ & _ & _ & [He | (e & Hl & _)] & _);
        [exact He | now destruct (Hok e)].
    + apply Forall_forall. intros msg Hin e ->. exact (Hno e Hin).
Qed.

Lemma run_launches msgs :
  forall m m' cmds,
    run m msgs = Returns (m', cmds) ->
    forall cmd, In cmd cmds -> is_launch cmd = true ->
      exists vm, cmd = LaunchSession vm (projectID m)
        /\ (In vm (vms m) \/ exists l, In (vmsMsg l) msgs /\ In vm l).
Proof.
  induction msgs as [|msg rest IH]; intros m m' cmds Hr cmd Hin Hl.
  - simpl in Hr. returned. destruct Hin.
  - destruct (run_cons_inv _ _ _ _ _ Hr)
      as (m1 & c & Hu & [(-> & _ & ->)|(_ & cmds2 & Hr2 & ->)]).
    + destruct Hin as [<-|[]]. discriminate Hl.
    + destruct Hin as [<-|Hin].
      * destruct (Update_launch_only_on_enter_step _ _ _ _ Hu Hl)
          as (vm & Hvm & ->).
        exists vm. auto.
      * destruct (IH _ _ _ Hr2 cmd Hin Hl) as (vm & -> & Hwhere).
        destruct (Update_step _ _ _ _ Hu) as (Hp & _ & Hv & _).
        exists vm. rewrite Hp. split; [reflexivity|].
        destruct Hwhere as [Hvm | (l & Hl' & Hvm)].
        -- destruct Hv as [Hv | (l & -> & Hv)].
           ++ left. now rewrite <- Hv.
           ++ right. exists l. split; [now left | now rewrite <- Hv].
        -- right. exists l. split; [now right | exact Hvm].
Qed.

(** X11.  In every run from the initial model, every session that is
    launched is launched for a record that a fetch success of that run
    delivered, and for the project the model was created with. *)
Theorem launches_only_fetched :
  forall c pid msgs m cmds,
    run (NewModel c pid) msgs = Returns (m, cmds) ->
    forall cmd, In cmd cmds -> is_launch cmd = true ->
      exists l vm, In (vmsMsg l) msgs /\ In vm l /\ cmd = LaunchSession vm pid.
Proof.
  intros c pid msgs m cmds Hr cmd Hin Hl.
  destruct (run_launches msgs _ _ _ Hr cmd Hin Hl) as (vm & -> & [[]|(l & Hm & Hvm)]).
  exists l, vm. auto.
Qed.

End SelectionEdges.

(** ** The view, and the way from the source to the screen *)

Section Screen.

Context {sp : spinner.Lib}.
Variable spinner_View : spinner.Model -> string.
Import tui render fetcher.

Lemma string_app_assoc (a b c : string) : ((a ++ b) ++ c = a ++ (b ++ c))%string.
Proof. induction a as [|x a IH]; simpl; [reflexivity | now rewrite IH]. Qed.

Lemma string_app_nil_r (a : string) : (a ++ "" = a)%string.
Proof. induction a as [|x a IH]; simpl; [reflexivity | now rewrite IH]. Qed.

(** The builder ends up with one row after the other. *)
Lemma writeRows_joined cursor vms :
  forall i b, writeRows cursor i vms b = (b ++ joined (rows cursor i vms))%string.
Proof.
  induction vms as [|vm rest IH]; intros i b; simpl.
  - now rewrite string_app_nil_r.
  - rewrite IH. apply string_app_assoc.
Qed.

Lemma rows_length cursor vms :
  forall i, List.length (rows cursor i vms) = List.length vms.
Proof. induction vms as [|vm rest IH]; intros i; simpl; [reflexivity | now rewrite IH]. Qed.

Lemma rows_nth cursor vms :
  forall i k vm,
    nth_error vms k = Some vm ->
    nth_error (rows cursor i vms) k = Some (row cursor (i + Z.of_nat k) vm).
Proof.
  induction vms as [|v rest IH]; intros i k vm Hk.
  - destruct k; discriminate Hk.
  - destruct k as [|k]; simpl in Hk.
    + injection Hk as <-. simpl. now rewrite Z.add_0_r.
    + simpl. rewrite (IH _ _ _ Hk). do 2 f_equal. lia.
Qed.

Lemma index_nth {A : Type} (l : list A) i a :
  index l i = Returns a -> 0 <= i /\ nth_error l (Z.to_nat i) = Some a.
Proof.
  unfold index. destruct (i <? 0) eqn:E; [discriminate|]. apply Z.ltb_ge in E.
  destruct (nth_error l (Z.to_nat i)); [|discriminate].
  intros H. injection H as <-. auto.
Qed.

(** X12.  The list screen shows the header, one row per record in the
    order of the inventory, and the footer.  The row of record k reads
    [> [name]] when the cursor is k and [  [name]] otherwise, so the one row
    that is marked is the row of the record on which enter launches the
    session. *)
Theorem View_marks_selected :
  forall m,
    phase m = Ready ->
    View spinner_View m
    = ("GCP VMs:" ++ nl ++ nl ++ joined (rows (cursor m) 0 (vms m))
       ++ nl ++ "Press q to quit." ++ nl)%string
    /\ List.length (rows (cursor m) 0 (vms m)) = List.length (vms m)
    /\ (forall k vm,
          nth_error (vms m) k = Some vm ->
          nth_error (rows (cursor m) 0 (vms m)) k
          = Some ((if (cursor m =? Z.of_nat k)%Z then "> [" else "  [")
                  ++ gcp.Name vm ++ "]" ++ nl)%string)
    /\ (forall vm,
          index (vms m) (cursor m) = Returns vm ->
          Update m (KeyMsg "enter") = Returns (m, LaunchSession vm (projectID m))
          /\ nth_error (rows (cursor m) 0 (vms m)) (Z.to_nat (cursor m))
             = Some ("> [" ++ gcp.Name vm ++ "]" ++ nl)%string).
Proof.
  intros m Hp.
  assert (Hrow : forall k vm,
             nth_error (vms m) k = Some vm ->
             nth_error (rows (cursor m) 0 (vms m)) k
             = Some ((if (cursor m =? Z.of_nat k)%Z then "> [" else "  [")
                     ++ gcp.Name vm ++ "]" ++ nl)%string).
  { intros k vm Hk. rewrite (rows_nth _ _ _ _ _ Hk). unfold row. simpl (0 + _).
    now destruct (cursor m =? Z.of_nat k). }
  split; [|split; [apply rows_length | split; [exact Hrow|]]].
  - unfold View, phase in *. destruct (err m); [discriminate|].
    destruct (loading m); [discriminate|].
    cbv zeta. rewrite writeRows_joined.
    now rewrite !string_app_assoc.
  - intros vm Hi. split.
    + apply KeyConfirm_launch; [|exact Hi].
      intros Hv. rewrite Hv in Hi. unfold index in Hi.
      destruct (cursor m <? 0); [discriminate|].
      now destruct (Z.to_nat (cursor m)).
    + destruct (index_nth _ _ _ Hi) as [H0 Hn].
      rewrite (Hrow _ _ Hn).
      replace (cursor m =? Z.of_nat (Z.to_nat (cursor m))) with true
        by (symmetry; apply Z.eqb_eq; lia).
      reflexivity.
Qed.

(** X13.  From the source to the screen.  A model created with a gcp
    client asks the API for its own project.  When the iterator fails after
    any number of well-formed pages, the fetch command turns the failure
    into the message that makes the model Failed, and the screen shows the
    fetcher's message followed by the cause's.  When the iterator is
    drained, the model becomes Ready with the records of all pages, the
    cursor on the first, and the list screen shows one row per record. *)
Theorem fetch_to_screen :
  forall (c : client.Client) pid pages,
    well_formed pages = true ->
    let m0 := NewModel (client.FetchInstances c) pid in
    (forall e rest,
       is_Done e = false ->
       client.api c {| client.Project := pid |}
       = (map compute.Item pages ++ compute.Failure e :: rest)%list ->
       exists msg m,
         fetchVmsCmd m0 = Returns msg /\ Update m0 msg = Returns (m, Nil)
         /\ phase m = Failed /\ vms m = []
         /\ View spinner_View m
            = (nl ++ "An error occurred: "
               ++ ("failed to iterate over instances: " ++ Error e)
               ++ nl ++ nl ++ "Press q to quit." ++ nl)%string)
    /\ (client.api c {| client.Project := pid |} = map compute.Item pages ->
        exists msg m,
          fetchVmsCmd m0 = Returns msg /\ Update m0 msg = Returns (m, Nil)
          /\ phase m = Ready /\ vms m = records pages /\ cursor m = 0
          /\ View spinner_View m
             = ("GCP VMs:" ++ nl ++ nl ++ joined (rows 0 0 (records pages))
                ++ nl ++ "Press q to quit." ++ nl)%string).
Proof.
  intros c pid pages Hwf m0. split.
  - intros e rest He Hapi.
    assert (Hf : client.FetchInstances c pid
                 = Returns ([], Some (Errorf_w "failed to iterate over instances: " e))).
    { unfold client.FetchInstances, gcp.FetchInstances. rewrite Hapi.
      rewrite (fetchLoop_pages _ Hwf). simpl. now rewrite He. }
    exists (errMsg (Errorf_w "failed to iterate over instances: " e)).
    eexists. split.
    + unfold fetchVmsCmd, m0. simpl. rewrite Hf. reflexivity.
    + split; [reflexivity|]. repeat split.
  - intros Hapi.
    assert (Hf : client.FetchInstances c pid = Returns (records pages, None)).
    { unfold client.FetchInstances, gcp.FetchInstances. rewrite Hapi.
      rewrite <- (app_nil_r (map compute.Item pages)).
      now rewrite (fetchLoop_pages _ Hwf). }
    exists (vmsMsg (records pages)). eexists. split.
    + unfold fetchVmsCmd, m0. simpl. rewrite Hf. reflexivity.
    + split; [reflexivity|]. split; [reflexivity|]. split; [reflexivity|].
      split; [reflexivity|].
      unfold View. simpl. rewrite writeRows_joined.
      now rewrite !string_app_assoc.
Qed.

End Screen.

(** ** The further properties at concrete models *)

Section EdgeScenarios.

Import tui render Samples.
Existing Instance stillSpinner.
Local Open Scope list_scope.

Lemma FetchInstances_panics_iff_witness :
  gcp.FetchInstances [compute.Item zonelessPage; compute.Failure apiError] = Panics.
Proof.
  exact (proj2 (FetchInstances_panics_iff
                  [compute.Item zonelessPage; compute.Failure apiError]) eq_refl).
Defined.

Lemma Update_quits_iff_witness :
  Update (listing [] 0) (KeyMsg "q") = Returns (listing [] 0, Quit).
Proof.
  exact (proj2 (Update_quits_iff (sp := stillSpinner) (listing [] 0) (KeyMsg "q")
                  (listing [] 0))
           (conj (or_intror eq_refl) eq_refl)).
Defined.

Lemma Update_launch_only_on_enter_witness :
  KeyMsg "enter" = KeyMsg "enter"
  /\ listing [vm1; vm2] 1 = listing [vm1; vm2] 1
  /\ exists vm,
       index [vm1; vm2] 1 = Returns vm
       /\ In vm [vm1; vm2]
       /\ LaunchSession vm2 "test-project" = LaunchSession vm "test-project".
Proof.
  exact (Update_launch_only_on_enter (sp := stillSpinner)
           (listing [vm1; vm2] 1) (KeyMsg "enter") _ _ eq_refl eq_refl).
Defined.

Lemma Update_panics_iff_witness :
  Update (listing [vm1] 2) (KeyMsg "enter") = Panics.
Proof.
  apply (proj2 (Update_panics_iff (sp := stillSpinner)
                  (listing [vm1] 2) (KeyMsg "enter"))).
  split; [reflexivity|]. split; [discriminate|].
  unfold len. simpl. intros [_ H]. discriminate H.
Defined.

Lemma phase_never_goes_back_witness :
  phase {| client := testClient; projectID := "test-project"; vms := [vm1];
           cursor := 0; loading := false; spinner := tt;
           err := Some (errMsg_error serverError) |} = Failed.
Proof.
  exact (proj1 (phase_never_goes_back (sp := stillSpinner)
                  [vmsMsg [vm1]; KeyMsg "down"] (failed serverError) _ [Nil; Nil]
                  eq_refl) eq_refl).
Defined.

Lemma keys_while_loading_witness :
  Update (NewModel testClient "test-project") (KeyMsg "enter")
  = Returns (NewModel testClient "test-project", Nil).
Proof.
  apply (keys_while_loading (sp := stillSpinner)).
  - exact NewModel_reachable.
  - reflexivity.
  - discriminate.
  - discriminate.
Defined.

Lemma cursor_after_n_keys_witness :
  run (listing [vm1; vm2; vm3] 0) (repeat (KeyMsg "down") 5)
  = Returns (listing [vm1; vm2; vm3] 2, repeat Nil 5).
Proof.
  refine (proj1 (cursor_after_n_keys (sp := stillSpinner)
                   (listing [vm1; vm2; vm3] 0) 5 _)).
  unfold len. simpl. lia.
Defined.

Lemma run_frame_witness :
  projectID (listing [vm1; vm2] 1) = "test-project"
  /\ client (listing [vm1; vm2] 1) = testClient
  /\ ((forall l, ~ In (vmsMsg l) [KeyMsg "down"; KeyMsg "enter"]) ->
      vms (listing [vm1; vm2] 1) = [vm1; vm2])
  /\ ((forall e, ~ In (errMsg e) [KeyMsg "down"; KeyMsg "enter"]) ->
      err (listing [vm1; vm2] 1) = None).
Proof.
  exact (run_frame (sp := stillSpinner) [KeyMsg "down"; KeyMsg "enter"]
           (listing [vm1; vm2] 0) _ [Nil; LaunchSession vm2 "test-project"] eq_refl).
Defined.

Lemma launches_only_fetched_witness :
  exists l vm,
    In (vmsMsg l) [vmsMsg [vm1; vm2]; KeyMsg "down"; KeyMsg "enter"]
    /\ In vm l
    /\ LaunchSession vm2 "test-project" = LaunchSession vm "test-project".
Proof.
  apply (launches_only_fetched (sp := stillSpinner) testClient "test-project"
           [vmsMsg [vm1; vm2]; KeyMsg "down"; KeyMsg "enter"]
           (listing [vm1; vm2] 1) [Nil; Nil; LaunchSession vm2 "test-project"]).
  - reflexivity.
  - right. right. left. reflexivity.
  - reflexivity.
Defined.

Lemma View_marks_selected_witness :
  View (fun _ => "|") (listing [vm1; vm2] 1)
  = ("GCP VMs:" ++ nl ++ nl
     ++ joined [("  [vm-1]" ++ nl)%string; ("> [vm-2]" ++ nl)%string]
     ++ nl ++ "Press q to quit." ++ nl)%string.
Proof.
  exact (proj1 (View_marks_selected (sp := stillSpinner) (fun _ => "|")
                  (listing [vm1; vm2] 1) eq_refl)).
Defined.

Lemma fetch_to_screen_witness :
  exists msg m,
    fetchVmsCmd
      (NewModel
         (client.FetchInstances
            {| client.api := fun _ =>
                 [compute.Item page1; compute.Item page2; compute.Failure apiError] |})
         "test-project")
    = Returns msg
    /\ Update
         (NewModel
            (client.FetchInstances
               {| client.api := fun _ =>
                    [compute.Item page1; compute.Item page2; compute.Failure apiError] |})
            "test-project") msg
       = Returns (m, Nil)
    /\ phase m = Failed /\ vms m = []
    /\ View (fun _ => "|") m
       = (nl ++ "An error occurred: "
          ++ ("failed to iterate over instances: " ++ "GCP API error")
          ++ nl ++ nl ++ "Press q to quit." ++ nl)%string.
Proof.
  exact (proj1 (fetch_to_screen (sp := stillSpinner) (fun _ => "|")
                  {| client.api := fun _ =>
                       [compute.Item page1; compute.Item page2; compute.Failure apiError] |}
                  "test-project" [page1; page2] eq_refl)
           apiError [] eq_refl eq_refl).
Defined.

End EdgeScenarios.
